(** * simple-backend: the contact store of [main.py]

    A shallow embedding of [main.py]: the bearer-token gate
    ([validate_token]), the JSON file store ([load_contacts],
    [save_contacts]) and the handlers that compose them
    ([create_contact], [delete_all_contacts]).

    Conventions of the embedding.
    - A Python [str] is the list of its code points ([pystr]).
    - [contacts.json] is modelled by its decoded text, or [None] when the
      file does not exist ([medium]).  The file is written as UTF-8: a
      text that holds a lone surrogate cannot be written.  A file whose
      bytes are not UTF-8 is not modelled.
    - Python exceptions raised inside a handler's [try] block are the
      [Exn] outcome of [py]; the text of [str(e)] is not modelled.
    - JSON numbers are Python [int]s.  A number literal with a fraction or
      an exponent, [NaN] and [Infinity] are doubles in Python: the parser
      answers [Unsupported] on them and no statement is made about such
      files.
    - A handler is given the [disk] it meets: whether the operating system
      lets it open the file and takes its write, and how much of the text
      reached the file when a save stops.  Limits of the interpreter
      (recursion depth, digits of an integer) are not modelled. *)

From Stdlib Require Import List NArith ZArith Lia Bool String Ascii.
From Stdlib Require Import DecimalFacts DecimalPos DecimalN DecimalZ.
Import ListNotations.

Local Open Scope N_scope.

(** ** Python strings *)

Module PyStr.

Definition pystr := list N.

(** A string literal of the source, as code points. *)
Definition text (s : string) : pystr :=
  map N_of_ascii (list_ascii_of_string s).

Fixpoint eqb (a b : pystr) : bool :=
  match a, b with
  | [], [] => true
  | x :: a', y :: b' => (x =? y) && eqb a' b'
  | _, _ => false
  end.

(** [s.startswith(p)] *)
Fixpoint startswith (s p : pystr) {struct p} : bool :=
  match p with
  | [] => true
  | c :: p' =>
      match s with
      | [] => false
      | d :: s' => (c =? d) && startswith s' p'
      end
  end.

(** [p in s] *)
Fixpoint contains (s p : pystr) : bool :=
  startswith s p ||
  match s with
  | [] => false
  | _ :: s' => contains s' p
  end.

(** The scan of [str.replace] for a non-empty [old]: occurrences are found
    from the left and do not overlap; [skip] counts the characters of the
    occurrence just replaced that are still to be passed over. *)
Fixpoint replace_from (old new : pystr) (skip : nat) (s : pystr) : pystr :=
  match s with
  | [] => []
  | c :: s' =>
      match skip with
      | S k => replace_from old new k s'
      | O =>
          if startswith s old
          then new ++ replace_from old new (List.length old - 1) s'
          else c :: replace_from old new 0 s'
      end
  end.

(** [s.replace(old, new)]: every occurrence is replaced.  With an empty
    [old] Python inserts [new] before each character and at the end. *)
Definition replace (s old new : pystr) : pystr :=
  match old with
  | [] => new ++ flat_map (fun c => c :: new) s
  | _ :: _ => replace_from old new 0 s
  end.

(** Truth value of a [str]: non-empty. *)
Definition truthy (s : pystr) : bool :=
  match s with [] => false | _ :: _ => true end.

End PyStr.

Import PyStr.

(** ** Handler outcomes *)

(** The [detail] of an [HTTPException]: a literal, or an f-string made of a
    fixed prefix followed by [str(e)]. *)
Inductive detail_t :=
| Literal (s : string)
| WithCause (s : string).

Record HTTPException := { status_code : Z; detail : detail_t }.

Inductive result (A : Type) :=
| Returns (a : A)
| Raises (e : HTTPException).
Arguments Returns {A} a.
Arguments Raises {A} e.

(** A 401 with a fixed message. *)
Definition unauthorized (msg : string) : HTTPException :=
  {| status_code := 401; detail := Literal msg |}.

(** ** AuthGate: [validate_token] *)

Definition Bearer : pystr := text "Bearer ".

Section AuthGate.

(** [API_TOKEN = os.getenv("ACCESS_TOKEN")], fixed at start-up. *)
Variable API_TOKEN : pystr.

(** [authorization] is [None] when the request has no [Authorization]
    header ([Header(None)]). *)
Definition validate_token (authorization : option pystr) : result pystr :=
  match authorization with
  | None =>
      Raises {| status_code := 401;
                detail := Literal "Authorization header is required" |}
  | Some a =>
      if negb (truthy a) then
        Raises {| status_code := 401;
                  detail := Literal "Authorization header is required" |}
      else if negb (startswith a Bearer) then
        Raises {| status_code := 401;
                  detail := Literal
                    "Invalid authorization format. Use 'Bearer <token>'" |}
      else
        let token := replace a Bearer [] in
        if negb (PyStr.eqb token API_TOKEN) then
          Raises {| status_code := 401; detail := Literal "Invalid token" |}
        else Returns token
  end.

End AuthGate.

(** ** JSON values and Python's [json] module

    The values [json.load] builds and [json.dump] writes.  A [dict] is an
    association list in insertion order with pairwise distinct keys
    ([wf]). *)

Module Json.

Unset Elimination Schemes.
Inductive json :=
| JNull
| JBool (b : bool)
| JInt (z : Z)
| JStr (s : pystr)
| JList (l : list json)
| JDict (d : list (pystr * json)).
Set Elimination Schemes.

(** *** Python operations on these values *)

(** [d[k]] on a dict ([None]: [KeyError]). *)
Fixpoint dict_get (k : pystr) (d : list (pystr * json)) : option json :=
  match d with
  | [] => None
  | (k', v) :: d' => if PyStr.eqb k' k then Some v else dict_get k d'
  end.

(** [d[k] = v]: an existing key keeps its position, a new key is added
    last. *)
Fixpoint dict_set (k : pystr) (v : json) (d : list (pystr * json))
  : list (pystr * json) :=
  match d with
  | [] => [(k, v)]
  | (k', v') :: d' =>
      if PyStr.eqb k' k then (k', v) :: d' else (k', v') :: dict_set k v d'
  end.

(** [dict(pairs)] *)
Definition dict_of_pairs (pairs : list (pystr * json)) : list (pystr * json) :=
  fold_left (fun d kv => dict_set (fst kv) (snd kv) d) pairs [].

(** Truth value ([if contacts:], [if not contacts:]). *)
Definition truthy (v : json) : bool :=
  match v with
  | JNull => false
  | JBool b => b
  | JInt z => negb (z =? 0)%Z
  | JStr s => PyStr.truthy s
  | JList l => match l with [] => false | _ :: _ => true end
  | JDict d => match d with [] => false | _ :: _ => true end
  end.

(** *** [json.dump(obj, f, indent=2, ensure_ascii=False)] *)

Fixpoint uint_chars (u : Decimal.uint) : pystr :=
  match u with
  | Decimal.Nil => []
  | Decimal.D0 u => 48 :: uint_chars u
  | Decimal.D1 u => 49 :: uint_chars u
  | Decimal.D2 u => 50 :: uint_chars u
  | Decimal.D3 u => 51 :: uint_chars u
  | Decimal.D4 u => 52 :: uint_chars u
  | Decimal.D5 u => 53 :: uint_chars u
  | Decimal.D6 u => 54 :: uint_chars u
  | Decimal.D7 u => 55 :: uint_chars u
  | Decimal.D8 u => 56 :: uint_chars u
  | Decimal.D9 u => 57 :: uint_chars u
  end.

(** [str(n)] of an [int]: decimal digits, a leading [-] when negative. *)
Definition repr_int (z : Z) : pystr :=
  match Z.to_int z with
  | Decimal.Pos u => uint_chars u
  | Decimal.Neg u => 45 :: uint_chars u
  end.

Definition hex_digit (d : N) : N := if d <? 10 then 48 + d else 87 + d.

(** [ESCAPE_DCT]: the quote, the backslash and the control characters are
    escaped; everything else is written as it is ([ensure_ascii=False]). *)
Definition escape (c : N) : pystr :=
  if c =? 34 then [92; 34]
  else if c =? 92 then [92; 92]
  else if c =? 10 then [92; 110]
  else if c =? 13 then [92; 114]
  else if c =? 9 then [92; 116]
  else if c =? 8 then [92; 98]
  else if c =? 12 then [92; 102]
  else if c <? 32 then [92; 117; 48; 48; hex_digit (c / 16); hex_digit (c mod 16)]
  else [c].

Definition encode_basestring (s : pystr) : pystr :=
  34 :: flat_map escape s ++ [34].

(** A newline followed by [indent * level] spaces, [indent = 2]. *)
Definition newline_indent (level : nat) : pystr :=
  10 :: repeat 32 (2 * level)%nat.

Fixpoint join (sep : pystr) (chunks : list pystr) : pystr :=
  match chunks with
  | [] => []
  | c :: cs =>
      match cs with
      | [] => c
      | _ :: _ => c ++ sep ++ join sep cs
      end
  end.

(** The text [_iterencode] yields for a value nested [level] deep; the item
    separator is [","], the key separator [": "]. *)
Fixpoint encode (level : nat) (v : json) : pystr :=
  match v with
  | JNull => text "null"
  | JBool true => text "true"
  | JBool false => text "false"
  | JInt z => repr_int z
  | JStr s => encode_basestring s
  | JList l =>
      match l with
      | [] => text "[]"
      | _ :: _ =>
          91 :: newline_indent (S level)
             ++ join (44 :: newline_indent (S level))
                  (map (encode (S level)) l)
             ++ newline_indent level ++ [93]
      end
  | JDict d =>
      match d with
      | [] => text "{}"
      | _ :: _ =>
          123 :: newline_indent (S level)
              ++ join (44 :: newline_indent (S level))
                   (map (fun kv => encode_basestring (fst kv) ++ [58; 32]
                                     ++ encode (S level) (snd kv)) d)
              ++ newline_indent level ++ [125]
      end
  end.

Definition dumps (v : json) : pystr := encode 0 v.

(** *** [json.load]

    The scanner of [json.decoder] / [json.scanner], in strict mode.  A scan
    returns the value read and the text that follows it. *)

Inductive scan (A : Type) :=
| Ok (a : A) (rest : pystr)
| DecodeError
| Unsupported
| OutOfFuel.
Arguments Ok {A} a rest.
Arguments DecodeError {A}.
Arguments Unsupported {A}.
Arguments OutOfFuel {A}.

Definition scan_map {A B} (f : A -> B) (r : scan A) : scan B :=
  match r with
  | Ok a rest => Ok (f a) rest
  | DecodeError => DecodeError
  | Unsupported => Unsupported
  | OutOfFuel => OutOfFuel
  end.

(** [WHITESPACE = [ \t\n\r]*] *)
Definition is_ws (c : N) : bool :=
  (c =? 32) || (c =? 9) || (c =? 10) || (c =? 13).

Fixpoint skip_ws (s : pystr) : pystr :=
  match s with
  | [] => []
  | c :: s' => if is_ws c then skip_ws s' else s
  end.

Definition is_digit (c : N) : bool := (48 <=? c) && (c <=? 57).

Definition hex_value (c : N) : option N :=
  if is_digit c then Some (c - 48)
  else if (97 <=? c) && (c <=? 102) then Some (c - 87)
  else if (65 <=? c) && (c <=? 70) then Some (c - 55)
  else None.

(** [_decode_uXXXX]: four hexadecimal digits. *)
Definition decode_uXXXX (h1 h2 h3 h4 : N) : option N :=
  match hex_value h1, hex_value h2, hex_value h3, hex_value h4 with
  | Some a, Some b, Some c, Some d => Some (((a * 16 + b) * 16 + c) * 16 + d)
  | _, _, _, _ => None
  end.

(** [BACKSLASH] *)
Definition backslash (e : N) : option N :=
  if e =? 34 then Some 34
  else if e =? 92 then Some 92
  else if e =? 47 then Some 47
  else if e =? 98 then Some 8
  else if e =? 102 then Some 12
  else if e =? 110 then Some 10
  else if e =? 114 then Some 13
  else if e =? 116 then Some 9
  else None.

Definition is_high_surrogate (u : N) : bool := (55296 <=? u) && (u <=? 56319).
Definition is_low_surrogate (u : N) : bool := (56320 <=? u) && (u <=? 57343).

(** [scanstring], entered after the opening quote.  A raw control
    character is refused; a [\uD8xx] escape followed by a [\uDCxx] escape
    is one character. *)
Fixpoint scanstring (s : pystr) : scan pystr :=
  match s with
  | [] => DecodeError
  | c :: s1 =>
      if c =? 34 then Ok [] s1
      else if c =? 92 then
        match s1 with
        | [] => DecodeError
        | e :: s2 =>
            if e =? 117 then
              match s2 with
              | h1 :: h2 :: h3 :: h4 :: s6 =>
                  match decode_uXXXX h1 h2 h3 h4 with
                  | None => DecodeError
                  | Some uni =>
                      if is_high_surrogate uni then
                        match s6 with
                        | b :: u :: g1 :: g2 :: g3 :: g4 :: s12 =>
                            if (b =? 92) && (u =? 117) then
                              match decode_uXXXX g1 g2 g3 g4 with
                              | None => DecodeError
                              | Some uni2 =>
                                  if is_low_surrogate uni2
                                  then scan_map
                                         (cons (65536 + ((uni - 55296) * 1024
                                                         + (uni2 - 56320))))
                                         (scanstring s12)
                                  else scan_map (cons uni) (scanstring s6)
                              end
                            else scan_map (cons uni) (scanstring s6)
                        | _ => scan_map (cons uni) (scanstring s6)
                        end
                      else scan_map (cons uni) (scanstring s6)
                  end
              | _ => DecodeError
              end
            else
              match backslash e with
              | None => DecodeError
              | Some c' => scan_map (cons c') (scanstring s2)
              end
        end
      else if c <? 32 then DecodeError
      else scan_map (cons c) (scanstring s1)
  end.

Definition digit_of (c : N) (u : Decimal.uint) : Decimal.uint :=
  if c =? 48 then Decimal.D0 u
  else if c =? 49 then Decimal.D1 u
  else if c =? 50 then Decimal.D2 u
  else if c =? 51 then Decimal.D3 u
  else if c =? 52 then Decimal.D4 u
  else if c =? 53 then Decimal.D5 u
  else if c =? 54 then Decimal.D6 u
  else if c =? 55 then Decimal.D7 u
  else if c =? 56 then Decimal.D8 u
  else Decimal.D9 u.

(** The longest run of digits at the head of [s]. *)
Fixpoint take_digits (s : pystr) : Decimal.uint * pystr :=
  match s with
  | [] => (Decimal.Nil, [])
  | c :: s' =>
      if is_digit c
      then let (u, rest) := take_digits s' in (digit_of c u, rest)
      else (Decimal.Nil, s)
  end.

(** Does a fraction [\.[0-9]+] or an exponent [[eE][-+]?[0-9]+] follow? *)
Definition float_follows (s : pystr) : bool :=
  match s with
  | c :: d :: s' =>
      if c =? 46 then is_digit d
      else if (c =? 101) || (c =? 69) then
        if (d =? 43) || (d =? 45)
        then match s' with d' :: _ => is_digit d' | [] => false end
        else is_digit d
      else false
  | _ => false
  end.

(** The digits of [NUMBER_RE]: either a single zero or a non-zero digit and
    the digits after it; an [int] unless a fraction or an exponent
    follows. *)
Definition match_integer (neg : bool) (s1 : pystr) : scan json :=
  match s1 with
  | [] => DecodeError
  | d :: s2 =>
      if is_digit d then
        let (u, rest) :=
          if d =? 48 then (Decimal.D0 Decimal.Nil, s2) else take_digits s1 in
        if float_follows rest then Unsupported
        else Ok (JInt (Z.of_int (if neg then Decimal.Neg u else Decimal.Pos u)))
                rest
      else DecodeError
  end.

(** [NUMBER_RE]: an optional minus sign, then the digits. *)
Definition match_number (s : pystr) : scan json :=
  match s with
  | [] => DecodeError
  | c :: s' => if c =? 45 then match_integer true s' else match_integer false s
  end.

Section Containers.

(** [scan_once] for the items and member values. *)
Variable scan_value : pystr -> scan json.

(** [JSONArray], after the first item's leading whitespace; [n] bounds the
    number of items. *)
Fixpoint array_items (n : nat) (s : pystr) : scan (list json) :=
  match n with
  | O => OutOfFuel
  | S n' =>
      match scan_value s with
      | Ok v r =>
          match skip_ws r with
          | [] => DecodeError
          | c :: r' =>
              if c =? 93 then Ok [v] r'
              else if c =? 44
                   then scan_map (cons v) (array_items n' (skip_ws r'))
                   else DecodeError
          end
      | DecodeError => DecodeError
      | Unsupported => Unsupported
      | OutOfFuel => OutOfFuel
      end
  end.

Definition JSONArray (n : nat) (s : pystr) : scan json :=
  match skip_ws s with
  | [] => DecodeError
  | c :: r =>
      if c =? 93 then Ok (JList []) r
      else scan_map JList (array_items n (c :: r))
  end.

(** [JSONObject], after the opening quote of a key; [n] bounds the number
    of members. *)
Fixpoint object_members (n : nat) (s : pystr) : scan (list (pystr * json)) :=
  match n with
  | O => OutOfFuel
  | S n' =>
      match scanstring s with
      | Ok k r =>
          match skip_ws r with
          | [] => DecodeError
          | c :: r1 =>
              if c =? 58 then
                match scan_value (skip_ws r1) with
                | Ok v r2 =>
                    match skip_ws r2 with
                    | [] => DecodeError
                    | c' :: r3 =>
                        if c' =? 125 then Ok [(k, v)] r3
                        else if c' =? 44 then
                          match skip_ws r3 with
                          | [] => DecodeError
                          | q :: r4 =>
                              if q =? 34
                              then scan_map (cons (k, v)) (object_members n' r4)
                              else DecodeError
                          end
                        else DecodeError
                    end
                | DecodeError => DecodeError
                | Unsupported => Unsupported
                | OutOfFuel => OutOfFuel
                end
              else DecodeError
          end
      | DecodeError => DecodeError
      | Unsupported => Unsupported
      | OutOfFuel => OutOfFuel
      end
  end.

Definition JSONObject (n : nat) (s : pystr) : scan json :=
  match skip_ws s with
  | [] => DecodeError
  | c :: r =>
      if c =? 125 then Ok (JDict []) r
      else if c =? 34
           then scan_map (fun ps => JDict (dict_of_pairs ps)) (object_members n r)
           else DecodeError
  end.

End Containers.

(** [scan_once]; [fuel] bounds the nesting depth and the number of items of
    a container.  [NaN], [Infinity] and [-Infinity] are doubles. *)
Fixpoint scan_once (fuel : nat) (s : pystr) : scan json :=
  match fuel with
  | O => OutOfFuel
  | S fuel' =>
      match s with
      | [] => DecodeError
      | c :: s1 =>
          if c =? 34 then scan_map JStr (scanstring s1)
          else if c =? 123 then JSONObject (scan_once fuel') fuel' s1
          else if c =? 91 then JSONArray (scan_once fuel') fuel' s1
          else if startswith s (text "null") then Ok JNull (skipn 4 s)
          else if startswith s (text "true") then Ok (JBool true) (skipn 4 s)
          else if startswith s (text "false") then Ok (JBool false) (skipn 5 s)
          else if startswith s (text "NaN")
                  || startswith s (text "Infinity")
                  || startswith s (text "-Infinity") then Unsupported
          else match_number s
      end
  end.

Inductive parsed :=
| Parsed (v : json)
| JSONDecodeError
| NotModelled.

(** [json.loads(s)]: one value between optional whitespace, nothing
    after it.  The fuel given is enough for every text
    ([scan_once_enough_fuel]). *)
Definition loads (s : pystr) : parsed :=
  match scan_once (S (List.length s)) (skip_ws s) with
  | Ok v rest =>
      match skip_ws rest with
      | [] => Parsed v
      | _ :: _ => JSONDecodeError
      end
  | DecodeError => JSONDecodeError
  | Unsupported => NotModelled
  | OutOfFuel => NotModelled
  end.

End Json.

Import Json.

(** ** Store: [load_contacts], [save_contacts] *)

(** The text of [contacts.json]; [None] when the file does not exist. *)
Definition medium := option pystr.

(** [os.path.exists(CONTACTS_FILE)] *)
Definition exists_ (m : medium) : bool :=
  match m with Some _ => true | None => false end.

(** [load_contacts()]: the parsed document whatever its shape, the empty
    list when the file is missing or [json.load] raises [JSONDecodeError].
    [None]: the file holds a document outside the model. *)
Definition load_contacts (m : medium) : option json :=
  if exists_ m then
    match m with
    | Some s =>
        match loads s with
        | Parsed v => Some v
        | JSONDecodeError => Some (JList [])
        | NotModelled => None
        end
    | None => Some (JList [])
    end
  else Some (JList []).

(** [open(CONTACTS_FILE, 'w')] creates the file or truncates it. *)
Definition open_w (m : medium) : medium := Some [].

(** [f.write(chunk)] appends to what has been written since [open]. *)
Definition write (chunk : pystr) (m : medium) : medium :=
  match m with
  | Some written => Some (written ++ chunk)
  | None => None
  end.

(** [save_contacts(contacts)] when every write succeeds. *)
Definition save_contacts (contacts : json) (m : medium) : medium :=
  write (dumps contacts) (open_w m).

(** [save_contacts(contacts)] when the write raises after [n] characters
    have reached the file: the [with] block closes the file and the
    exception leaves the function. *)
Definition save_contacts_interrupted (n : nat) (contacts : json) (m : medium)
  : medium :=
  write (firstn n (dumps contacts)) (open_w m).

(** A computation inside a handler's [try] block: a value, or any Python
    exception ([except Exception]). *)
Inductive py (A : Type) :=
| Val (a : A)
| Exn.
Arguments Val {A} a.
Arguments Exn {A}.

(** A Unicode scalar value: a code point that is not a surrogate. *)
Definition is_scalar (c : N) : bool :=
  (c <? 55296) || ((57343 <? c) && (c <=? 1114111)).

(** A string the validation library accepts as [str]; what it does with a
    string that holds a lone surrogate is not modelled. *)
Definition scalar_text (s : pystr) : bool := forallb is_scalar s.

(** The number of characters at the head of a text that can be encoded. *)
Fixpoint encodable_prefix (s : pystr) : nat :=
  match s with
  | [] => O
  | c :: s' => if is_scalar c then S (encodable_prefix s') else O
  end.

(** What the operating system may do to a save: refuse to open the file
    for writing, or stop the write after the file is opened. *)
Inductive refusal :=
| Denied
| Stopped.

(** What a request meets when it writes: the [fault] of the operating
    system, if any, and, for a save that stops, how many characters of the
    new text had [reached] the file.  The output is buffered: which part
    of it is in the file when the write stops is the runtime's matter; the
    statements hold for every such number. *)
Record disk := { fault : option refusal; reached : nat }.

(** [save_contacts(contacts)] as the handlers call it, inside their [try].
    It raises when [open] is refused, and the file is then as it was.  It
    raises when the text holds a character that cannot be encoded as UTF-8
    ([UnicodeEncodeError]) or when the operating system stops the write;
    the file, truncated when it was opened, then holds the part of the new
    text that had reached it, nothing of it at or after the first
    character that cannot be encoded. *)
Definition save_contacts_outcome (d : disk) (contacts : json) (m : medium)
  : py unit * medium :=
  match fault d with
  | Some Denied => (Exn, m)
  | Some Stopped =>
      (Exn,
       save_contacts_interrupted
         (Nat.min (reached d) (encodable_prefix (dumps contacts)))
         contacts m)
  | None =>
      if scalar_text (dumps contacts)
      then (Val tt, save_contacts contacts m)
      else (Exn,
            save_contacts_interrupted
              (Nat.min (reached d) (encodable_prefix (dumps contacts)))
              contacts m)
  end.

(** ** Handlers *)

Module ContactRequest.
Record t := {
  name : pystr;
  email : pystr;
  subject : pystr;
  message : pystr;
  phone : option pystr;
  company : option pystr;
  isDeleted : bool
}.
End ContactRequest.

Module ContactResponse.
Record t := {
  id : Z;
  name : pystr;
  email : pystr;
  subject : pystr;
  message : pystr;
  phone : option pystr;
  company : option pystr;
  createdAt : pystr;
  isDeleted : bool
}.
End ContactResponse.

(** An [Optional[str]] field. *)
Definition optional (o : option pystr) : json :=
  match o with Some s => JStr s | None => JNull end.

(** [contact.model_dump()]: the fields in declaration order. *)
Definition model_dump (contact : ContactRequest.t) : list (pystr * json) :=
  [ (text "name", JStr (ContactRequest.name contact));
    (text "email", JStr (ContactRequest.email contact));
    (text "subject", JStr (ContactRequest.subject contact));
    (text "message", JStr (ContactRequest.message contact));
    (text "phone", optional (ContactRequest.phone contact));
    (text "company", optional (ContactRequest.company contact));
    (text "isDeleted", JBool (ContactRequest.isDeleted contact)) ].

(** The value of an [int]; [bool] is a subclass of [int]. *)
Definition as_int (v : json) : option Z :=
  match v with
  | JInt z => Some z
  | JBool b => Some (Z.b2z b)
  | _ => None
  end.

(** [c["id"] for c in contacts] over a list, when every [c] is a dict with
    an integer under ["id"]. *)
Fixpoint ids (l : list json) : option (list Z) :=
  match l with
  | [] => Some []
  | c :: l' =>
      match c with
      | JDict d =>
          match dict_get (text "id") d with
          | Some v =>
              match as_int v, ids l' with
              | Some z, Some zs => Some (z :: zs)
              | _, _ => None
              end
          | None => None
          end
      | _ => None
      end
  end.

(** [next_id = 1; if contacts: next_id = max(c["id"] for c in contacts) + 1].
    A truthy value that is not a list cannot be iterated or yields strings,
    which have no ["id"]; identifiers that are not numbers cannot all be
    compared and added to [1]: [TypeError] or [KeyError]. *)
Definition next_id (contacts : json) : py Z :=
  if truthy contacts then
    match contacts with
    | JList l =>
        match ids l with
        | Some (z :: zs) => Val (fold_left Z.max zs z + 1)%Z
        | _ => Exn
        end
    | _ => Exn
    end
  else Val 1%Z.

(** [contacts.append(contact_data)]: only a list has [append]. *)
Definition append (contacts : json) (contact_data : json) : py json :=
  match contacts with
  | JList l => Val (JList (l ++ [contact_data]))
  | _ => Exn
  end.

(** [contact_data] once [id] and [createdAt] are set. *)
Definition contact_data (contact : ContactRequest.t) (next_id : Z)
    (current_time : pystr) : list (pystr * json) :=
  dict_set (text "createdAt") (JStr current_time)
    (dict_set (text "id") (JInt next_id) (model_dump contact)).

(** The record with the fields of a request, an identifier and a
    timestamp: what validation makes of [contact_data]
    ([validate_contact_data]). *)
Definition ContactResponse_of (contact : ContactRequest.t) (next_id : Z)
    (current_time : pystr) : ContactResponse.t :=
  {| ContactResponse.id := next_id;
     ContactResponse.name := ContactRequest.name contact;
     ContactResponse.email := ContactRequest.email contact;
     ContactResponse.subject := ContactRequest.subject contact;
     ContactResponse.message := ContactRequest.message contact;
     ContactResponse.phone := ContactRequest.phone contact;
     ContactResponse.company := ContactRequest.company contact;
     ContactResponse.createdAt := current_time;
     ContactResponse.isDeleted := ContactRequest.isDeleted contact |}.

Definition server_error {A} (prefix : string) : result A :=
  Raises {| status_code := 500; detail := WithCause prefix |}.

(** The validation of one field of [ContactResponse]: the value, [Exn] when
    validation is sure to fail, [None] when the value has another type than
    the declared one and the answer depends on the coercions of the
    validation library, which are not modelled. *)
Definition validated (A : Type) := option (py A).

(** A required [str] field. *)
Definition str_field (k : pystr) (d : list (pystr * json)) : validated pystr :=
  match dict_get k d with
  | None => Some Exn
  | Some (JStr s) => if scalar_text s then Some (Val s) else None
  | Some _ => None
  end.

(** An [Optional[str]] field with default [None]. *)
Definition optional_field (k : pystr) (d : list (pystr * json))
  : validated (option pystr) :=
  match dict_get k d with
  | None => Some (Val None)
  | Some JNull => Some (Val None)
  | Some (JStr s) => if scalar_text s then Some (Val (Some s)) else None
  | Some _ => None
  end.

(** A required [bool] field. *)
Definition bool_field (k : pystr) (d : list (pystr * json)) : validated bool :=
  match dict_get k d with
  | None => Some Exn
  | Some (JBool b) => Some (Val b)
  | Some _ => None
  end.

(** An integer that fits in 64 bits. *)
Definition in_range (z : Z) : bool :=
  ((-9223372036854775808 <=? z) && (z <=? 9223372036854775807))%Z.

(** A required [int] field; integers that do not fit in 64 bits are left
    to the validation library. *)
Definition int_field (k : pystr) (d : list (pystr * json)) : validated Z :=
  match dict_get k d with
  | None => Some Exn
  | Some (JInt z) => if in_range z then Some (Val z) else None
  | Some _ => None
  end.

(** All fields are validated and the model is built when none failed: one
    field that is sure to fail makes the construction fail. *)
Definition field_ap {A B} (f : validated (A -> B)) (x : validated A)
  : validated B :=
  match f, x with
  | Some Exn, _ => Some Exn
  | _, Some Exn => Some Exn
  | Some (Val g), Some (Val a) => Some (Val (g a))
  | _, _ => None
  end.

(** The [ContactResponse] built from the members of [contact] as keyword
    arguments.  Only a dict can be unpacked; keys that are not fields are
    ignored. *)
Definition ContactResponse_validate (contact : json)
  : validated ContactResponse.t :=
  match contact with
  | JDict d =>
      field_ap (field_ap (field_ap (field_ap (field_ap (field_ap (field_ap
        (field_ap (field_ap (Some (Val ContactResponse.Build_t))
          (int_field (text "id") d))
          (str_field (text "name") d))
          (str_field (text "email") d))
          (str_field (text "subject") d))
          (str_field (text "message") d))
          (optional_field (text "phone") d))
          (optional_field (text "company") d))
          (str_field (text "createdAt") d))
          (bool_field (text "isDeleted") d)
  | _ => Some Exn
  end.

(** [create_contact(contact)], the dependency on [validate_token] already
    passed; [current_time] is [datetime.now().isoformat()].  The result is
    the response and the medium afterwards.  The save and the construction
    of the response are inside the [try]: when one of them raises, the
    answer is a 500 and the medium is what the save left. *)
Definition create_contact (d : disk) (contact : ContactRequest.t)
    (current_time : pystr) (m : medium)
  : option (result ContactResponse.t * medium) :=
  match load_contacts m with
  | None => None
  | Some contacts =>
      match next_id contacts with
      | Exn => Some (server_error "Error saving contact: ", m)
      | Val next_id =>
          let contact_data := contact_data contact next_id current_time in
          match append contacts (JDict contact_data) with
          | Exn => Some (server_error "Error saving contact: ", m)
          | Val contacts =>
              match save_contacts_outcome d contacts m with
              | (Exn, m') => Some (server_error "Error saving contact: ", m')
              | (Val _, m') =>
                  match ContactResponse_validate (JDict contact_data) with
                  | None => None
                  | Some Exn =>
                      Some (server_error "Error saving contact: ", m')
                  | Some (Val response) => Some (Returns response, m')
                  end
              end
          end
      end
  end.

(** [len(contacts)] *)
Definition len (contacts : json) : py Z :=
  match contacts with
  | JList l => Val (Z.of_nat (List.length l))
  | JDict d => Val (Z.of_nat (List.length d))
  | JStr s => Val (Z.of_nat (List.length s))
  | _ => Exn
  end.

(** [contacts.copy()]: lists and dicts have [copy]. *)
Definition copy (contacts : json) : py json :=
  match contacts with
  | JList l => Val (JList l)
  | JDict d => Val (JDict d)
  | _ => Exn
  end.

(** [contacts.clear()], on a value that has [copy]. *)
Definition clear (contacts : json) : json :=
  match contacts with
  | JDict _ => JDict []
  | _ => JList []
  end.

(** [delete_all_contacts()]: the returned dict and the medium afterwards.
    The save is inside the [try]. *)
Definition delete_all_contacts (d : disk) (m : medium)
  : option (result json * medium) :=
  match load_contacts m with
  | None => None
  | Some contacts =>
      if negb (truthy contacts) then
        Some (Returns (JDict [ (text "message", JStr (text "No contacts to delete"));
                               (text "deleted_count", JInt 0) ]), m)
      else
        match len contacts with
        | Exn => Some (server_error "Error deleting contacts: ", m)
        | Val deleted_count =>
            match copy contacts with
            | Exn => Some (server_error "Error deleting contacts: ", m)
            | Val deleted_contacts =>
                let contacts := clear contacts in
                match save_contacts_outcome d contacts m with
                | (Exn, m') =>
                    Some (server_error "Error deleting contacts: ", m')
                | (Val _, m') =>
                    Some (Returns
                            (JDict [ (text "message",
                                      JStr (text "All "
                                              ++ repr_int deleted_count
                                              ++ text " contacts deleted successfully"));
                                     (text "deleted_count", JInt deleted_count);
                                     (text "deleted_contacts", deleted_contacts) ]),
                          m')
                end
            end
        end
  end.

(** A handler behind [Depends(validate_token)]: a refused credential is
    answered without running the handler. *)
Definition Depends {A} (API_TOKEN : pystr) (authorization : option pystr)
    (handler : medium -> option (result A * medium)) (m : medium)
  : option (result A * medium) :=
  match validate_token API_TOKEN authorization with
  | Raises e => Some (Raises e, m)
  | Returns _ => handler m
  end.

(** ** The other entry points *)

(** Module level: [API_TOKEN = os.getenv("ACCESS_TOKEN")], and the process
    stops with [ValueError] ([None]) when the variable is unset or empty. *)
Definition startup (ACCESS_TOKEN : option pystr) : option pystr :=
  match ACCESS_TOKEN with
  | Some t => if negb (PyStr.truthy t) then None else Some t
  | None => None
  end.

(** [hello()] *)
Definition hello : json :=
  JDict [ (text "message", JStr (text "Hello! from Nitesh")) ].

(** [for contact in contacts]: a list yields its items, a dict its keys, a
    string its characters; nothing else can be iterated. *)
Definition iterate (contacts : json) : py (list json) :=
  match contacts with
  | JList l => Val l
  | JDict d => Val (map (fun kv => JStr (fst kv)) d)
  | JStr s => Val (map (fun c => JStr [c]) s)
  | _ => Exn
  end.

(** The list comprehension of [get_contacts]: the items in order, stopped
    by the first failure. *)
Fixpoint validate_all (items : list json) : validated (list ContactResponse.t) :=
  match items with
  | [] => Some (Val [])
  | contact :: items' =>
      match ContactResponse_validate contact with
      | None => None
      | Some Exn => Some Exn
      | Some (Val r) =>
          match validate_all items' with
          | None => None
          | Some Exn => Some Exn
          | Some (Val rs) => Some (Val (r :: rs))
          end
      end
  end.

(** [get_contacts()], the dependency on [validate_token] already passed. *)
Definition get_contacts (m : medium)
  : option (result (list ContactResponse.t) * medium) :=
  match load_contacts m with
  | None => None
  | Some contacts =>
      match iterate contacts with
      | Exn => Some (server_error "Error loading contacts: ", m)
      | Val items =>
          match validate_all items with
          | None => None
          | Some Exn => Some (server_error "Error loading contacts: ", m)
          | Some (Val rs) => Some (Returns rs, m)
          end
      end
  end.

(** The strings of a record are made of scalar values. *)
Definition text_ok (r : ContactResponse.t) : bool :=
  scalar_text (ContactResponse.name r)
  && scalar_text (ContactResponse.email r)
  && scalar_text (ContactResponse.subject r)
  && scalar_text (ContactResponse.message r)
  && match ContactResponse.phone r with
     | Some s => scalar_text s
     | None => true
     end
  && match ContactResponse.company r with
     | Some s => scalar_text s
     | None => true
     end
  && scalar_text (ContactResponse.createdAt r).

(** A record whose stored form the model validates: a 64-bit identifier
    and strings of scalar values. *)
Definition fits (r : ContactResponse.t) : bool :=
  in_range (ContactResponse.id r) && text_ok r.

(** The required fields of [ContactResponse]. *)
Definition required : list pystr :=
  [ text "id"; text "name"; text "email"; text "subject"; text "message";
    text "createdAt"; text "isDeleted" ].

(** The answer of clear-all when nothing is stored. *)
Definition nothing_to_delete : json :=
  JDict [ (text "message", JStr (text "No contacts to delete"));
          (text "deleted_count", JInt 0) ].

(** ** Notions used to state the properties *)

(** What may follow a value in the text [encode] produces: the end, a
    comma, or the newline before a closing bracket. *)
Definition stop (rest : pystr) : bool :=
  match rest with
  | [] => true
  | c :: _ => (c =? 44) || (c =? 10)
  end.

(** Pairwise distinct keys. *)
Fixpoint distinct (ks : list pystr) : bool :=
  match ks with
  | [] => true
  | k :: ks' => negb (existsb (PyStr.eqb k) ks') && distinct ks'
  end.

(** A value Python can hold: the keys of every dict are pairwise
    distinct. *)
Fixpoint wf (v : json) : bool :=
  match v with
  | JList l => forallb wf l
  | JDict d => distinct (map fst d) && forallb (fun kv => wf (snd kv)) d
  | _ => true
  end.

(** Fuel that suffices to scan the text of a value. *)
Fixpoint need (v : json) : nat :=
  match v with
  | JList l => S (Nat.max (List.length l) (list_max (map need l)))
  | JDict d =>
      S (Nat.max (List.length d) (list_max (map (fun kv => need (snd kv)) d)))
  | _ => 1
  end.

(** The first character of the text of a value: not whitespace, not a
    closing bracket. *)
Definition opens_value (s : pystr) : Prop :=
  exists c r, s = c :: r /\ is_ws c = false /\ (c =? 93) = false.

(** The scan of a value written by [encode], as an induction hypothesis. *)
Definition reads_back (v : json) : Prop :=
  wf v = true ->
  forall fuel level rest,
    (need v <= fuel)%nat -> stop rest = true ->
    scan_once fuel (encode level v ++ rest) = Ok v rest.

(** The text of a dict member. *)
Definition member (level : nat) (kv : pystr * json) : pystr :=
  encode_basestring (fst kv) ++ [58; 32] ++ encode level (snd kv).

(** ** Records and runs of requests *)

(** The dict [create_contact] stores for a record: the request's fields,
    then [id], then [createdAt]. *)
Definition stored (r : ContactResponse.t) : json :=
  JDict
    [ (text "name", JStr (ContactResponse.name r));
      (text "email", JStr (ContactResponse.email r));
      (text "subject", JStr (ContactResponse.subject r));
      (text "message", JStr (ContactResponse.message r));
      (text "phone", optional (ContactResponse.phone r));
      (text "company", optional (ContactResponse.company r));
      (text "isDeleted", JBool (ContactResponse.isDeleted r));
      (text "id", JInt (ContactResponse.id r));
      (text "createdAt", JStr (ContactResponse.createdAt r)) ].

(** A dict with the integer [z] under ["id"]. *)
Definition has_id (c : json) (z : Z) : Prop :=
  exists d, c = JDict d /\ dict_get (text "id") d = Some (JInt z).

(** Requests served one after the other, each with its timestamp. *)
Fixpoint creates (d : disk) (requests : list (ContactRequest.t * pystr))
    (m : medium) : option (list (result ContactResponse.t) * medium) :=
  match requests with
  | [] => Some ([], m)
  | (contact, current_time) :: requests' =>
      match create_contact d contact current_time m with
      | None => None
      | Some (r, m') =>
          match creates d requests' m' with
          | None => None
          | Some (rs, m'') => Some (r :: rs, m'')
          end
      end
  end.

(** The responses that carry the identifiers [first], [first + 1], ... *)
Fixpoint numbered (first : Z) (requests : list (ContactRequest.t * pystr))
  : list (result ContactResponse.t) :=
  match requests with
  | [] => []
  | (contact, current_time) :: requests' =>
      Returns (ContactResponse_of contact first current_time)
        :: numbered (first + 1) requests'
  end.

(** A value whose strings and keys can all be encoded. *)
Fixpoint encodable (v : json) : bool :=
  match v with
  | JStr s => scalar_text s
  | JList l => forallb encodable l
  | JDict d => forallb (fun kv => scalar_text (fst kv) && encodable (snd kv)) d
  | _ => true
  end.

(** What the store holds between two requests of a run that started on an
    empty store: a well-formed list whose strings can be encoded and whose
    next identifier is [k]. *)
Definition holds (m : medium) (k : Z) : Prop :=
  exists l zs,
    load_contacts m = Some (JList l)
    /\ wf (JList l) = true
    /\ encodable (JList l) = true
    /\ ids l = Some zs
    /\ k = match zs with
           | [] => 1%Z
           | z :: zs' => (fold_left Z.max zs' z + 1)%Z
           end
    /\ (1 <= k)%Z.

(** A disk that takes every write. *)
Definition working_disk : disk := {| fault := None; reached := 0 |}.

(** A disk that stops the write once [n] characters are in the file. *)
Definition failing_disk (n : nat) : disk :=
  {| fault := Some Stopped; reached := n |}.

(** A disk on which the file cannot be opened for writing. *)
Definition read_only_disk : disk := {| fault := Some Denied; reached := 0 |}.

(** The request of the specification's example. *)
Definition request_A : ContactRequest.t :=
  {| ContactRequest.name := text "A";
     ContactRequest.email := text "a@b.com";
     ContactRequest.subject := text "S";
     ContactRequest.message := text "M";
     ContactRequest.phone := None;
     ContactRequest.company := None;
     ContactRequest.isDeleted := false |}.

(** Identifiers to which one can be added within 64 bits. *)
Definition below_max (z : Z) : Prop :=
  (-9223372036854775808 <= z < 9223372036854775807)%Z.

(** The identifier a create gives on a list whose identifiers are [zs]:
    1 on the empty list, otherwise one more than the greatest. *)
Definition next_after (zs : list Z) (n : Z) : Prop :=
  match zs with
  | [] => n = 1%Z
  | _ :: _ => In (n - 1)%Z zs /\ Forall (fun z => (z <= n - 1)%Z) zs
  end.

(** A scan that succeeds has consumed at least one character. *)
Definition consumes {A} (r : scan A) (s : pystr) : Prop :=
  r <> OutOfFuel
  /\ forall a rest, r = Ok a rest -> (List.length rest < List.length s)%nat.

(** * Properties *)

(** ** Python strings *)

Lemma pystr_eqb_eq (a b : pystr) : PyStr.eqb a b = true <-> a = b.
Proof.
  revert b; induction a as [|x a IH]; intros [|y b]; simpl;
    try (split; [discriminate | discriminate]); try tauto.
  rewrite andb_true_iff, N.eqb_eq, IH.
  split; [intros [-> ->]; reflexivity | intros [= -> ->]; auto].
Qed.

Lemma pystr_eqb_refl (a : pystr) : PyStr.eqb a a = true.
Proof. apply pystr_eqb_eq; reflexivity. Qed.

Lemma pystr_eqb_neq (a b : pystr) : PyStr.eqb a b = false <-> a <> b.
Proof.
  rewrite <- pystr_eqb_eq. destruct (PyStr.eqb a b); split; congruence.
Qed.

Lemma startswith_app (p t : pystr) : startswith (p ++ t) p = true.
Proof.
  induction p as [|c p IH]; simpl; [reflexivity|].
  rewrite N.eqb_refl; exact IH.
Qed.

Lemma startswith_iff (s p : pystr) :
  startswith s p = true <-> exists t, s = p ++ t.
Proof.
  split.
  - revert s; induction p as [|c p IH]; intros s H.
    + exists s; reflexivity.
    + destruct s as [|d s]; simpl in H; [discriminate|].
      apply andb_true_iff in H as [Hc Hs]. apply N.eqb_eq in Hc; subst d.
      destruct (IH _ Hs) as [t ->]. exists t; reflexivity.
  - intros [t ->]; apply startswith_app.
Qed.

(** Once an occurrence is replaced the scan resumes after it. *)
Lemma replace_from_skip (old new u t : pystr) :
  replace_from old new (List.length u) (u ++ t) = replace_from old new 0 t.
Proof.
  induction u as [|c u IH]; simpl; [reflexivity | exact IH].
Qed.

Lemma replace_from_prefix (c : N) (old' new t : pystr) :
  replace_from (c :: old') new 0 ((c :: old') ++ t)
  = new ++ replace_from (c :: old') new 0 t.
Proof.
  change (replace_from (c :: old') new 0 ((c :: old') ++ t))
    with (if startswith ((c :: old') ++ t) (c :: old')
          then new ++ replace_from (c :: old') new
                        (List.length (c :: old') - 1) (old' ++ t)
          else c :: replace_from (c :: old') new 0 (old' ++ t)).
  rewrite startswith_app.
  replace (List.length (c :: old') - 1)%nat with (List.length old')
    by (simpl; lia).
  rewrite replace_from_skip. reflexivity.
Qed.

(** A string in which [old] does not occur is left as it is. *)
Lemma replace_from_absent (old new t : pystr) :
  contains t old = false -> replace_from old new 0 t = t.
Proof.
  induction t as [|c t IH]; intros H; [reflexivity|].
  simpl in H. apply orb_false_iff in H as [Hs Hc].
  cbn [replace_from]. rewrite Hs, (IH Hc). reflexivity.
Qed.

Lemma replace_Bearer_prefix (t : pystr) :
  contains t Bearer = false -> replace (Bearer ++ t) Bearer [] = t.
Proof.
  intros H. unfold replace.
  change Bearer with (66 :: text "earer ") in *.
  rewrite replace_from_prefix. simpl app.
  apply replace_from_absent; exact H.
Qed.

(** ** AuthGate *)

(** What [validate_token] computes: it returns exactly when the header is
    present, starts with the scheme prefix, and is the secret once every
    occurrence of the prefix is removed; the value returned is the
    secret. *)
Lemma validate_token_Returns (API_TOKEN : pystr) (authorization : option pystr)
    (token : pystr) :
  validate_token API_TOKEN authorization = Returns token <->
  exists a, authorization = Some a
            /\ startswith a Bearer = true
            /\ replace a Bearer [] = API_TOKEN
            /\ token = API_TOKEN.
Proof.
  unfold validate_token. split.
  - destruct authorization as [a|]; [|discriminate].
    destruct (PyStr.truthy a); cbn [negb]; [|discriminate].
    destruct (startswith a Bearer) eqn:Hs; cbn [negb]; [|discriminate].
    destruct (PyStr.eqb (replace a Bearer []) API_TOKEN) eqn:He; cbn [negb];
      [|discriminate].
    apply pystr_eqb_eq in He. intros [= <-]. exists a; auto.
  - intros (a & -> & Hs & Hr & ->).
    assert (Ht : PyStr.truthy a = true).
    { apply startswith_iff in Hs as [t ->]. reflexivity. }
    rewrite Ht, Hs, Hr, pystr_eqb_refl. reflexivity.
Qed.

(** The header made of the prefix and the secret is accepted whenever the
    secret does not itself contain the prefix. *)
Lemma validate_token_accepts_secret (API_TOKEN : pystr) :
  contains API_TOKEN Bearer = false ->
  validate_token API_TOKEN (Some (Bearer ++ API_TOKEN)) = Returns API_TOKEN.
Proof.
  intros H. apply validate_token_Returns.
  exists (Bearer ++ API_TOKEN).
  split; [reflexivity|]. split; [apply startswith_app|].
  split; [apply replace_Bearer_prefix; exact H | reflexivity].
Qed.

(** C2, on the code: the header [Bearer Bearer s3cret] starts with the
    prefix and what follows the prefix, [Bearer s3cret], is not the secret
    [s3cret]; [validate_token] returns the secret all the same, because
    [replace] removes both occurrences of the prefix. *)
Theorem validate_token_repeated_prefix :
  validate_token (text "s3cret") (Some (text "Bearer Bearer s3cret"))
    = Returns (text "s3cret")
  /\ startswith (text "Bearer Bearer s3cret") Bearer = true
  /\ skipn 7 (text "Bearer Bearer s3cret") <> text "s3cret".
Proof.
  split; [reflexivity|]. split; [reflexivity|]. discriminate.
Qed.

(** With a secret that contains the prefix, the header made of the prefix
    and the secret is refused. *)
Lemma validate_token_secret_with_prefix :
  validate_token (text "Bearer x") (Some (text "Bearer Bearer x"))
    = Raises (unauthorized "Invalid token").
Proof. reflexivity. Qed.

(** C7, as the code has it: a missing or empty header is answered "Authorization
    header is required"; a non-empty header that does not start with
    [Bearer ] is answered with the invalid-format message; the prefix
    followed by a token that does not contain the prefix and is not the
    secret is answered "Invalid token"; the three answers are 401s with
    pairwise different messages. *)
Theorem validate_token_failures (API_TOKEN : pystr) :
  validate_token API_TOKEN None
    = Raises (unauthorized "Authorization header is required")
  /\ validate_token API_TOKEN (Some [])
    = Raises (unauthorized "Authorization header is required")
  /\ (forall a, a <> [] -> startswith a Bearer = false ->
      validate_token API_TOKEN (Some a)
        = Raises (unauthorized
                    "Invalid authorization format. Use 'Bearer <token>'"))
  /\ (forall t, contains t Bearer = false -> t <> API_TOKEN ->
      validate_token API_TOKEN (Some (Bearer ++ t))
        = Raises (unauthorized "Invalid token"))
  /\ unauthorized "Authorization header is required"
       <> unauthorized "Invalid authorization format. Use 'Bearer <token>'"
  /\ unauthorized "Authorization header is required"
       <> unauthorized "Invalid token"
  /\ unauthorized "Invalid authorization format. Use 'Bearer <token>'"
       <> unauthorized "Invalid token".
Proof.
  split; [reflexivity|]. split; [reflexivity|]. split; [|split].
  - intros a Ha Hs. unfold validate_token.
    destruct a as [|c a]; [congruence|]. simpl PyStr.truthy. cbn [negb].
    rewrite Hs. reflexivity.
  - intros t Hc Hne. unfold validate_token.
    rewrite startswith_app, (replace_Bearer_prefix t Hc).
    apply pystr_eqb_neq in Hne. rewrite Hne. reflexivity.
  - repeat split; discriminate.
Qed.

Lemma validate_token_failures_witness :
  validate_token (text "s3cret") (Some (text "Basic s3cret"))
    = Raises (unauthorized
                "Invalid authorization format. Use 'Bearer <token>'")
  /\ validate_token (text "s3cret") (Some (Bearer ++ text "guess"))
    = Raises (unauthorized "Invalid token").
Proof.
  destruct (validate_token_failures (text "s3cret")) as (_ & _ & Hf & Ht & _).
  split.
  - apply Hf; [discriminate | reflexivity].
  - apply Ht; [reflexivity | discriminate].
Defined.

(** C7 as stated fails on the empty header: it is a header without the
    prefix, and the answer is the message of the missing header, not the
    invalid-format one. *)
Lemma validate_token_empty_header :
  startswith [] Bearer = false
  /\ validate_token (text "s3cret") (Some [])
     = Raises (unauthorized "Authorization header is required")
  /\ validate_token (text "s3cret") (Some [])
     <> Raises (unauthorized
                  "Invalid authorization format. Use 'Bearer <token>'").
Proof.
  split; [reflexivity|]. split; [reflexivity|]. discriminate.
Qed.

(** ** JSON: what is written is read back *)

(** Induction on values, with the hypothesis for every item of a list and
    every member of a dict. *)
Lemma json_ind (P : json -> Prop)
    (HNull : P JNull)
    (HBool : forall b, P (JBool b))
    (HInt : forall z, P (JInt z))
    (HStr : forall s, P (JStr s))
    (HList : forall l, Forall P l -> P (JList l))
    (HDict : forall d, Forall (fun kv => P (snd kv)) d -> P (JDict d)) :
  forall v, P v.
Proof.
  fix IH 1. intros [ | b | z | s | l | d ].
  - exact HNull.
  - apply HBool.
  - apply HInt.
  - apply HStr.
  - apply HList. induction l as [|x l IHl]; constructor; [apply IH | exact IHl].
  - apply HDict. induction d as [|[k x] d IHd]; constructor;
      [apply IH | exact IHd].
Qed.

Lemma skip_ws_start (c : N) (s : pystr) :
  is_ws c = false -> skip_ws (c :: s) = c :: s.
Proof. intros H; simpl; rewrite H; reflexivity. Qed.

Lemma skip_ws_spaces (n : nat) (s : pystr) :
  skip_ws (repeat 32 n ++ s) = skip_ws s.
Proof. induction n as [|n IH]; [reflexivity | exact IH]. Qed.

Lemma skip_ws_newline_indent (level : nat) (s : pystr) :
  skip_ws (newline_indent level ++ s) = skip_ws s.
Proof. unfold newline_indent; simpl. apply skip_ws_spaces. Qed.

(** One character of a string, escaped and read back. *)
Lemma scanstring_escape (c : N) (tail : pystr) :
  scanstring (escape c ++ tail) = scan_map (cons c) (scanstring tail).
Proof.
  destruct (c <? 93) eqn:Hlt.
  - apply N.ltb_lt in Hlt.
    assert (Hn : (N.to_nat c < 93)%nat) by lia. clear Hlt.
    rewrite <- (N2Nat.id c). revert Hn. generalize (N.to_nat c). intros n Hn.
    do 93 (destruct n as [|n]; [reflexivity|]). lia.
  - apply N.ltb_ge in Hlt. unfold escape.
    repeat match goal with
    | |- context [?a =? ?b] =>
        replace (a =? b) with false by (symmetry; apply N.eqb_neq; lia)
    | |- context [?a <? ?b] =>
        replace (a <? b) with false by (symmetry; apply N.ltb_ge; lia)
    end.
    simpl.
    repeat match goal with
    | |- context [?a =? ?b] =>
        replace (a =? b) with false by (symmetry; apply N.eqb_neq; lia)
    | |- context [?a <? ?b] =>
        replace (a <? b) with false by (symmetry; apply N.ltb_ge; lia)
    end.
    reflexivity.
Qed.

Lemma scanstring_encode (s rest : pystr) :
  scanstring (flat_map escape s ++ 34 :: rest) = Ok s rest.
Proof.
  induction s as [|c s IH]; [reflexivity|].
  simpl flat_map. rewrite <- app_assoc, scanstring_escape, IH. reflexivity.
Qed.

Lemma stop_float_follows (rest : pystr) :
  stop rest = true -> float_follows rest = false.
Proof.
  destruct rest as [|c [|d rest]]; try reflexivity.
  unfold stop. intros H. apply orb_true_iff in H as [H|H];
    apply N.eqb_eq in H; subst c; reflexivity.
Qed.

Lemma stop_take_digits (rest : pystr) :
  stop rest = true -> take_digits rest = (Decimal.Nil, rest).
Proof.
  destruct rest as [|c rest]; [reflexivity|].
  unfold stop. intros H. apply orb_true_iff in H as [H|H];
    apply N.eqb_eq in H; subst c; reflexivity.
Qed.

Lemma take_digits_uint_chars (u : Decimal.uint) (rest : pystr) :
  stop rest = true -> take_digits (uint_chars u ++ rest) = (u, rest).
Proof.
  intros H. induction u; simpl uint_chars; simpl app;
    [apply stop_take_digits; exact H | ..];
    cbn [take_digits]; rewrite IHu; reflexivity.
Qed.

Lemma nzhead_digits (u : Decimal.uint) :
  (Decimal.nb_digits (Decimal.nzhead u) <= Decimal.nb_digits u)%nat.
Proof. induction u; simpl; lia. Qed.

(** The decimal digits of a positive number do not start with a zero. *)
Lemma to_uint_head (p : positive) :
  exists d ds, uint_chars (Pos.to_uint p) = d :: ds
               /\ is_digit d = true /\ (d =? 48) = false.
Proof.
  pose proof (DecimalPos.Unsigned.to_of (Pos.to_uint p)) as H.
  rewrite DecimalPos.Unsigned.of_to in H. simpl in H.
  pose proof (DecimalPos.Unsigned.to_uint_nonnil p) as Hnil.
  pose proof (DecimalPos.Unsigned.to_uint_nonzero p) as Hz.
  destruct (Pos.to_uint p) as [|u|u|u|u|u|u|u|u|u|u] eqn:E;
    try congruence;
    try (eexists; eexists; split; [reflexivity | split; reflexivity]).
  exfalso. unfold Decimal.unorm in H. simpl Decimal.nzhead in H.
  pose proof (nzhead_digits u) as Hd.
  destruct (Decimal.nzhead u) eqn:En; try discriminate H.
  - injection H as ->. apply Hz. reflexivity.
  - injection H as ->. simpl in Hd. lia.
Qed.

Lemma is_digit_bounds (d : N) : is_digit d = true -> 48 <= d <= 57.
Proof.
  unfold is_digit. intros H. apply andb_true_iff in H as [H1 H2].
  apply N.leb_le in H1, H2. lia.
Qed.

Lemma match_number_repr_int (z : Z) (rest : pystr) :
  stop rest = true ->
  match_number (repr_int z ++ rest) = Ok (JInt z) rest.
Proof.
  intros H. pose proof (DecimalZ.of_to z) as Hz.
  unfold repr_int. destruct z as [|p|p]; simpl Z.to_int in *.
  - unfold match_number, match_integer. cbn -[float_follows].
    rewrite (stop_float_follows _ H). reflexivity.
  - destruct (to_uint_head p) as (d & ds & E & Hd & H0).
    assert (H45 : (d =? 45) = false)
      by (apply is_digit_bounds in Hd; apply N.eqb_neq; lia).
    unfold match_number. rewrite E. simpl app. cbv beta iota. rewrite H45.
    unfold match_integer. rewrite Hd, H0.
    change (d :: ds ++ rest) with ((d :: ds) ++ rest).
    rewrite <- E, take_digits_uint_chars, (stop_float_follows _ H), Hz
      by exact H.
    reflexivity.
  - destruct (to_uint_head p) as (d & ds & E & Hd & H0).
    unfold match_number. simpl app. cbv beta iota.
    rewrite N.eqb_refl, E. simpl app.
    unfold match_integer. rewrite Hd, H0.
    change (d :: ds ++ rest) with ((d :: ds) ++ rest).
    rewrite <- E, take_digits_uint_chars, (stop_float_follows _ H), Hz
      by exact H.
    reflexivity.
Qed.

Lemma distinct_NoDup (ks : list pystr) : distinct ks = true <-> NoDup ks.
Proof.
  induction ks as [|k ks IH]; simpl.
  - split; [constructor | reflexivity].
  - rewrite andb_true_iff, negb_true_iff, IH. split.
    + intros [Hk Hd]. constructor; [|exact Hd].
      intros Hin. apply not_true_iff_false in Hk. apply Hk.
      apply existsb_exists. exists k. split; [exact Hin | apply pystr_eqb_refl].
    + intros Hn. inversion Hn as [|? ? Hnot Hd]; subst. split; [|exact Hd].
      apply not_true_iff_false. intros He.
      apply existsb_exists in He as (k' & Hin & He).
      apply pystr_eqb_eq in He. subst k'. exact (Hnot Hin).
Qed.

Lemma dict_set_fresh (k : pystr) (v : json) (d : list (pystr * json)) :
  ~ In k (map fst d) -> dict_set k v d = d ++ [(k, v)].
Proof.
  induction d as [|[k' v'] d IH]; intros Hn; [reflexivity|].
  simpl in *. destruct (PyStr.eqb k' k) eqn:E.
  - apply pystr_eqb_eq in E. tauto.
  - rewrite IH by tauto. reflexivity.
Qed.

Lemma dict_of_pairs_from (d acc : list (pystr * json)) :
  NoDup (map fst (acc ++ d)) ->
  fold_left (fun d kv => dict_set (fst kv) (snd kv) d) d acc = acc ++ d.
Proof.
  revert acc; induction d as [|[k v] d IH]; intros acc Hn; simpl.
  - rewrite List.app_nil_r; reflexivity.
  - rewrite dict_set_fresh.
    + rewrite IH; rewrite <- List.app_assoc; [reflexivity | exact Hn].
    + rewrite map_app in Hn. simpl in Hn.
      apply NoDup_remove_2 in Hn. intros Hin. apply Hn.
      apply in_or_app; left; exact Hin.
Qed.

(** A dict read member by member is the dict that was written. *)
Lemma dict_of_pairs_distinct (d : list (pystr * json)) :
  distinct (map fst d) = true -> dict_of_pairs d = d.
Proof.
  intros H. apply distinct_NoDup in H.
  unfold dict_of_pairs. rewrite dict_of_pairs_from; [reflexivity | exact H].
Qed.

Lemma digit_cases (d : N) :
  is_digit d = true ->
  d = 48 \/ d = 49 \/ d = 50 \/ d = 51 \/ d = 52 \/ d = 53 \/ d = 54
  \/ d = 55 \/ d = 56 \/ d = 57.
Proof. intros H. apply is_digit_bounds in H. lia. Qed.

Lemma repr_int_head (z : Z) :
  exists c r, repr_int z = c :: r
    /\ (is_digit c = true
        \/ (c = 45 /\ exists d r', r = d :: r' /\ is_digit d = true)).
Proof.
  unfold repr_int. destruct z as [|p|p]; simpl Z.to_int.
  - exists 48, []. split; [reflexivity | left; reflexivity].
  - destruct (to_uint_head p) as (d & ds & E & Hd & _).
    exists d, ds. split; [exact E | left; exact Hd].
  - destruct (to_uint_head p) as (d & ds & E & Hd & _).
    exists 45, (uint_chars (Pos.to_uint p)). split; [reflexivity | right].
    split; [reflexivity|]. exists d, ds. split; [exact E | exact Hd].
Qed.

Lemma encode_opens (level : nat) (v : json) (rest : pystr) :
  opens_value (encode level v ++ rest).
Proof.
  unfold opens_value.
  destruct v as [ | [|] | z | s | [|x l] | [|kv d] ];
    try (eexists; eexists; split; [reflexivity | split; reflexivity]).
  destruct (repr_int_head z) as (c & r & E & [Hd | [-> _]]).
  - exists c, (r ++ rest). simpl encode. rewrite E. split; [reflexivity|].
    destruct (digit_cases c Hd) as [->|[->|[->|[->|[->|[->|[->|[->|[->| ->]]]]]]]]];
      split; reflexivity.
  - exists 45, (r ++ rest). simpl encode. rewrite E.
    split; [reflexivity | split; reflexivity].
Qed.

Lemma skip_ws_opens (s : pystr) : opens_value s -> skip_ws s = s.
Proof. intros (c & r & -> & Hw & _). apply skip_ws_start; exact Hw. Qed.

(** A number is scanned by [match_number]. *)
Lemma scan_once_number (fuel : nat) (z : Z) (rest : pystr) :
  scan_once (S fuel) (repr_int z ++ rest) = match_number (repr_int z ++ rest).
Proof.
  destruct (repr_int_head z) as (c & r & E & [Hd | [-> (d & r' & -> & Hd)]]);
    rewrite E.
  - destruct (digit_cases c Hd) as [->|[->|[->|[->|[->|[->|[->|[->|[->| ->]]]]]]]]];
      reflexivity.
  - destruct (digit_cases d Hd) as [->|[->|[->|[->|[->|[->|[->|[->|[->| ->]]]]]]]]];
      reflexivity.
Qed.

Lemma join_cons (sep c : pystr) (cs : list pystr) :
  cs <> [] -> join sep (c :: cs) = c ++ sep ++ join sep cs.
Proof. destruct cs; [congruence | reflexivity]. Qed.

Lemma stop_newline_indent (level : nat) (s : pystr) :
  stop (newline_indent level ++ s) = true.
Proof. reflexivity. Qed.

Lemma array_items_join (f level : nat) (l : list json) :
  l <> [] ->
  Forall reads_back l ->
  forallb wf l = true ->
  (list_max (map need l) <= f)%nat ->
  forall n rest,
    (List.length l <= n)%nat ->
    array_items (scan_once f) n
      (join (44 :: newline_indent (S level)) (map (encode (S level)) l)
         ++ newline_indent level ++ 93 :: rest)
    = Ok l rest.
Proof.
  induction l as [|x l IH]; [congruence|].
  intros _ HF Hwf Hmax n rest Hn.
  inversion HF as [|? ? Hx HFl]; subst.
  simpl in Hwf. apply andb_true_iff in Hwf as [Hwx Hwl].
  simpl in Hmax.
  destruct n as [|n]; [simpl in Hn; exfalso; lia|]. simpl in Hn.
  destruct l as [|y l].
  - simpl join. cbn [array_items].
    rewrite (Hx Hwx f (S level)) by (try lia; apply stop_newline_indent).
    rewrite skip_ws_newline_indent. reflexivity.
  - rewrite map_cons, join_cons by discriminate.
    rewrite <- !List.app_assoc. cbn [array_items].
    rewrite (Hx Hwx f (S level)) by (try lia; reflexivity).
    rewrite <- List.app_comm_cons.
    rewrite skip_ws_start by reflexivity.
    cbn [N.eqb Pos.eqb]. cbv beta iota.
    rewrite skip_ws_newline_indent.
    rewrite skip_ws_opens.
    + rewrite IH; [reflexivity | discriminate | exact HFl | exact Hwl
                  | simpl in *; lia | simpl in *; lia].
    + simpl map. destruct l; [simpl join | rewrite join_cons by discriminate];
        rewrite <- ?List.app_assoc; apply encode_opens.
Qed.

Lemma member_text (level : nat) (k : pystr) (v : json) (t : pystr) :
  member level (k, v) ++ t
  = 34 :: flat_map escape k ++ 34 :: 58 :: 32 :: encode level v ++ t.
Proof.
  unfold member, encode_basestring. simpl.
  rewrite <- !List.app_assoc. reflexivity.
Qed.

Lemma object_members_join (f level : nat) (d : list (pystr * json)) :
  d <> [] ->
  Forall (fun kv => reads_back (snd kv)) d ->
  forallb (fun kv => wf (snd kv)) d = true ->
  (list_max (map (fun kv => need (snd kv)) d) <= f)%nat ->
  forall n rest,
    (List.length d <= n)%nat ->
    object_members (scan_once f) n
      (tl (join (44 :: newline_indent (S level)) (map (member (S level)) d)
             ++ newline_indent level ++ 125 :: rest))
    = Ok d rest.
Proof.
  induction d as [|[k x] d IH]; [congruence|].
  intros _ HF Hwf Hmax n rest Hn.
  inversion HF as [|? ? Hx HFd]; subst. simpl in Hx.
  simpl in Hwf. apply andb_true_iff in Hwf as [Hwx Hwd].
  simpl in Hmax.
  destruct n as [|n]; [simpl in Hn; exfalso; lia|]. simpl in Hn.
  destruct d as [|[k' y] d].
  - simpl join. rewrite member_text. cbn [tl object_members].
    rewrite scanstring_encode. cbn [skip_ws is_ws N.eqb Pos.eqb orb].
    cbv beta iota.
    rewrite skip_ws_opens by apply encode_opens.
    rewrite (Hx Hwx f (S level)) by (try lia; apply stop_newline_indent).
    rewrite skip_ws_newline_indent. reflexivity.
  - rewrite map_cons, join_cons by discriminate.
    rewrite <- !List.app_assoc, member_text. cbn [tl object_members].
    rewrite scanstring_encode. cbn [skip_ws is_ws N.eqb Pos.eqb orb].
    cbv beta iota.
    rewrite skip_ws_opens by apply encode_opens.
    rewrite (Hx Hwx f (S level)) by (try lia; reflexivity).
    rewrite <- List.app_comm_cons.
    rewrite skip_ws_start by reflexivity.
    cbn [N.eqb Pos.eqb]. cbv beta iota.
    rewrite skip_ws_newline_indent.
    specialize (IH ltac:(discriminate) HFd Hwd ltac:(simpl in *; lia) n rest
                  ltac:(simpl in *; lia)).
    revert IH. rewrite map_cons.
    destruct d as [|kv d];
      [simpl join | rewrite (join_cons _ _ (map _ (kv :: d))) by discriminate];
      rewrite <- ?List.app_assoc, member_text; cbn [tl]; intros IH;
      rewrite skip_ws_start by reflexivity; cbn [N.eqb Pos.eqb];
      cbv beta iota; rewrite IH; reflexivity.
Qed.

Lemma encode_dict_members (level : nat) (d : list (pystr * json)) :
  map (fun kv => encode_basestring (fst kv) ++ [58; 32]
                   ++ encode (S level) (snd kv)) d
  = map (member (S level)) d.
Proof. reflexivity. Qed.

(** Every well-formed value is read back from its text, whatever the
    nesting level and whatever follows, given enough fuel. *)
Lemma scan_once_encode (v : json) : reads_back v.
Proof.
  induction v as [ | b | z | s | l IH | d IH ] using json_ind;
    intros Hwf fuel level rest Hfuel Hstop;
    (destruct fuel as [|f]; [simpl in Hfuel; exfalso; lia|]).
  - reflexivity.
  - destruct b; reflexivity.
  - simpl encode. rewrite scan_once_number.
    apply match_number_repr_int; exact Hstop.
  - simpl encode. unfold encode_basestring.
    rewrite <- List.app_comm_cons, <- List.app_assoc.
    cbn [scan_once N.eqb Pos.eqb]. cbv beta iota.
    change ([34] ++ rest) with (34 :: rest).
    rewrite scanstring_encode. reflexivity.
  - destruct l as [|x l]; [reflexivity|].
    cbn [encode]. rewrite <- List.app_comm_cons.
    cbn [scan_once N.eqb Pos.eqb]. cbv beta iota.
    unfold JSONArray. rewrite <- !List.app_assoc, skip_ws_newline_indent.
    assert (Ho : opens_value
                   (join (44 :: newline_indent (S level))
                      (map (encode (S level)) (x :: l))
                    ++ newline_indent level ++ [93] ++ rest)).
    { rewrite map_cons.
      destruct l; [simpl join | rewrite join_cons by discriminate];
        rewrite <- ?List.app_assoc; apply encode_opens. }
    rewrite (skip_ws_opens _ Ho).
    destruct Ho as (c & r & E & _ & Hc). rewrite E, Hc, <- E.
    cbn [need] in Hfuel. simpl in Hwf.
    change ([93] ++ rest) with (93 :: rest).
    rewrite array_items_join;
      [reflexivity | discriminate | exact IH | exact Hwf | lia | lia].
  - destruct d as [|kv d]; [reflexivity|].
    cbn [encode]. rewrite encode_dict_members, <- List.app_comm_cons.
    cbn [scan_once N.eqb Pos.eqb]. cbv beta iota.
    unfold JSONObject. rewrite <- !List.app_assoc, skip_ws_newline_indent.
    cbn [need] in Hfuel. simpl in Hwf. apply andb_true_iff in Hwf as [Hk Hwf].
    change ([125] ++ rest) with (125 :: rest).
    pose proof (object_members_join f level (kv :: d) ltac:(discriminate) IH
                  Hwf ltac:(lia) f rest ltac:(lia)) as Hm.
    revert Hm. rewrite map_cons. destruct kv as [k x].
    destruct d as [|kv d];
      [simpl join | rewrite (join_cons _ _ (map _ (kv :: d))) by discriminate];
      rewrite <- ?List.app_assoc, member_text; cbn [tl]; intros Hm;
      rewrite skip_ws_start by reflexivity; cbn [N.eqb Pos.eqb];
      cbv beta iota; rewrite Hm; cbn [scan_map];
      rewrite dict_of_pairs_distinct by exact Hk; reflexivity.
Qed.

Lemma need_positive (v : json) : (1 <= need v)%nat.
Proof. destruct v; simpl; lia. Qed.

Lemma repr_int_length (z : Z) : (1 <= List.length (repr_int z))%nat.
Proof.
  destruct (repr_int_head z) as (c & r & -> & _). simpl; lia.
Qed.

Lemma join_length (sep : pystr) (chunks : list pystr) (sizes : list nat) :
  Forall2 (fun c n => (1 <= n <= List.length c)%nat) chunks sizes ->
  (Nat.max (List.length chunks) (list_max sizes)
   <= List.length (join sep chunks))%nat.
Proof.
  induction 1 as [|c n cs ns Hc HF IH]; [simpl; lia|].
  unfold list_max in *. cbn [fold_right].
  destruct cs as [|c' cs].
  - inversion HF; subst. cbn [join List.length fold_right]. lia.
  - rewrite join_cons by discriminate. rewrite !length_app.
    cbn [List.length] in *. lia.
Qed.

(** The text of a value is at least as long as the fuel its scan needs. *)
Lemma need_encode (v : json) :
  forall level, (need v <= List.length (encode level v))%nat.
Proof.
  induction v as [ | b | z | s | l IH | d IH ] using json_ind; intros level.
  - simpl; lia.
  - destruct b; simpl; lia.
  - simpl need. simpl encode. apply repr_int_length.
  - simpl. lia.
  - destruct l as [|x l]; [simpl; lia|].
    cbn [encode need]. cbn [List.length]. rewrite !length_app.
    pose proof (join_length (44 :: newline_indent (S level))
                  (map (encode (S level)) (x :: l)) (map need (x :: l))) as H.
    rewrite length_map in H.
    assert (HF : Forall2 (fun c n => (1 <= n <= List.length c)%nat)
                   (map (encode (S level)) (x :: l)) (map need (x :: l))).
    { clear H. induction IH as [|y l' Hy _ IHl]; [constructor|].
      simpl map. constructor; [|exact IHl].
      split; [apply need_positive | apply Hy]. }
    specialize (H HF). cbn [List.length] in H. lia.
  - destruct d as [|kv d]; [simpl; lia|].
    cbn [encode need]. cbn [List.length]. rewrite !length_app.
    rewrite encode_dict_members.
    pose proof (join_length (44 :: newline_indent (S level))
                  (map (member (S level)) (kv :: d))
                  (map (fun kv => need (snd kv)) (kv :: d))) as H.
    rewrite length_map in H.
    assert (HF : Forall2 (fun c n => (1 <= n <= List.length c)%nat)
                   (map (member (S level)) (kv :: d))
                   (map (fun kv => need (snd kv)) (kv :: d))).
    { clear H. induction IH as [|y l' Hy _ IHl]; [constructor|].
      simpl map. constructor; [|exact IHl].
      split; [apply need_positive|].
      unfold member. rewrite !length_app. specialize (Hy (S level)). lia. }
    specialize (H HF). cbn [List.length] in H. lia.
Qed.

(** [json.loads(json.dumps(v, indent=2, ensure_ascii=False)) == v] *)
Theorem loads_dumps (v : json) : wf v = true -> loads (dumps v) = Parsed v.
Proof.
  intros Hwf. unfold loads, dumps.
  rewrite <- (List.app_nil_r (encode 0 v)) at 2.
  rewrite skip_ws_opens by apply encode_opens.
  rewrite List.app_nil_r.
  rewrite <- (List.app_nil_r (encode 0 v)) at 2.
  rewrite (scan_once_encode v Hwf);
    [reflexivity | pose proof (need_encode v 0); lia | reflexivity].
Qed.

(** ** The scanner never runs out of fuel *)

Lemma skip_ws_length (s : pystr) :
  (List.length (skip_ws s) <= List.length s)%nat.
Proof.
  induction s as [|c s IH]; simpl; [lia|].
  destruct (is_ws c); simpl; lia.
Qed.

Lemma consumes_scan_map {A B} (f : A -> B) (r : scan A) (s s' : pystr) :
  consumes r s' -> (List.length s' <= List.length s)%nat ->
  consumes (scan_map f r) s.
Proof.
  intros [Hf Hl] Hs. destruct r as [a rest| | |]; simpl;
    (split; [try discriminate; try congruence|]); try discriminate.
  intros b rest' [= <- <-]. specialize (Hl a rest eq_refl). lia.
Qed.

Lemma consumes_error {A} (s : pystr) : consumes (@DecodeError A) s.
Proof. split; discriminate. Qed.

Lemma consumes_unsupported {A} (s : pystr) : consumes (@Unsupported A) s.
Proof. split; discriminate. Qed.

Lemma consumes_ok {A} (a : A) (rest s : pystr) :
  (List.length rest < List.length s)%nat -> consumes (Ok a rest) s.
Proof. intros H. split; [discriminate|]. intros ? ? [= <- <-]. exact H. Qed.

Lemma scanstring_consumes_upto (n : nat) :
  forall s, (List.length s <= n)%nat -> consumes (scanstring s) s.
Proof.
  induction n as [|n IH]; intros s Hn.
  - destruct s; [apply consumes_error | simpl in Hn; lia].
  - assert (Hcons : forall (f : pystr -> pystr) t,
               (List.length t < List.length s)%nat ->
               consumes (scan_map f (scanstring t)) s).
    { intros f t Ht. apply (consumes_scan_map f _ s t); [apply IH|]; lia. }
    destruct s as [|c s1]; [apply consumes_error|]. cbn [scanstring].
    destruct (c =? 34); [apply consumes_ok; simpl; lia|].
    destruct (c =? 92).
    + destruct s1 as [|e s2]; [apply consumes_error|].
      destruct (e =? 117).
      * destruct s2 as [|h1 [|h2 [|h3 [|h4 s6]]]]; try apply consumes_error.
        destruct (decode_uXXXX h1 h2 h3 h4) as [uni|];
          [|apply consumes_error].
        destruct (is_high_surrogate uni);
          [|apply Hcons; simpl; lia].
        destruct s6 as [|b [|u [|g1 [|g2 [|g3 [|g4 s12]]]]]];
          try (apply Hcons; simpl; lia).
        destruct ((b =? 92) && (u =? 117));
          [|apply Hcons; simpl; lia].
        destruct (decode_uXXXX g1 g2 g3 g4) as [uni2|];
          [|apply consumes_error].
        destruct (is_low_surrogate uni2); apply Hcons; simpl; lia.
      * destruct (backslash e); [apply Hcons; simpl; lia|].
        apply consumes_error.
    + destruct (c <? 32); [apply consumes_error|].
      apply Hcons; simpl; lia.
Qed.

Lemma scanstring_consumes (s : pystr) : consumes (scanstring s) s.
Proof. apply (scanstring_consumes_upto (List.length s)). lia. Qed.

Lemma take_digits_length (s : pystr) :
  (List.length (snd (take_digits s)) <= List.length s)%nat.
Proof.
  induction s as [|c s IH]; simpl; [lia|].
  destruct (is_digit c); [|simpl; lia].
  destruct (take_digits s) as [u rest]. simpl in *. lia.
Qed.

Lemma match_integer_consumes (neg : bool) (s1 s : pystr) :
  (List.length s1 <= List.length s)%nat -> consumes (match_integer neg s1) s.
Proof.
  intros Hs1. unfold match_integer.
  destruct s1 as [|d s2]; [apply consumes_error|].
  destruct (is_digit d) eqn:Hd; [|apply consumes_error].
  destruct (d =? 48).
  - destruct (float_follows s2); [apply consumes_unsupported|].
    apply consumes_ok. simpl in Hs1. lia.
  - pose proof (take_digits_length s2) as Hl.
    cbn [take_digits]. rewrite Hd.
    destruct (take_digits s2) as [u rest]. simpl in Hl.
    destruct (float_follows rest); [apply consumes_unsupported|].
    apply consumes_ok. simpl in Hs1. lia.
Qed.

Lemma match_number_consumes (s : pystr) : consumes (match_number s) s.
Proof.
  unfold match_number. destruct s as [|c s']; [apply consumes_error|].
  destruct (c =? 45); apply match_integer_consumes; simpl; lia.
Qed.

Section ContainersConsume.

Variable scan_value : pystr -> scan json.
Variable bound : nat.
Hypothesis scan_value_consumes :
  forall t, (List.length t < bound)%nat -> consumes (scan_value t) t.

Lemma array_items_consumes (n : nat) :
  forall s,
    (List.length s < n)%nat -> (List.length s < bound)%nat ->
    consumes (array_items scan_value n s) s.
Proof.
  induction n as [|n IH]; intros s Hn Hb; [lia|].
  cbn [array_items]. destruct (scan_value_consumes s Hb) as [Hf Hl].
  destruct (scan_value s) as [v r| | |];
    [| apply consumes_error | apply consumes_unsupported | congruence].
  specialize (Hl v r eq_refl). pose proof (skip_ws_length r) as Hw.
  destruct (skip_ws r) as [|c r']; [apply consumes_error|].
  simpl in Hw.
  destruct (c =? 93); [apply consumes_ok; lia|].
  destruct (c =? 44); [|apply consumes_error].
  pose proof (skip_ws_length r') as Hw'.
  apply (consumes_scan_map _ _ s (skip_ws r')); [apply IH; lia | lia].
Qed.

Lemma JSONArray_consumes (n : nat) (c : N) (s : pystr) :
  (List.length s < n)%nat -> (List.length s < bound)%nat ->
  consumes (JSONArray scan_value n s) (c :: s).
Proof.
  intros Hn Hb. unfold JSONArray. pose proof (skip_ws_length s) as Hw.
  destruct (skip_ws s) as [|d r]; [apply consumes_error|]. simpl in Hw.
  destruct (d =? 93); [apply consumes_ok; simpl; lia|].
  apply (consumes_scan_map _ _ (c :: s) (d :: r));
    [apply array_items_consumes; simpl; lia | simpl; lia].
Qed.

Lemma object_members_consumes (n : nat) :
  forall s,
    (List.length s < n)%nat -> (List.length s < bound)%nat ->
    consumes (object_members scan_value n s) s.
Proof.
  induction n as [|n IH]; intros s Hn Hb; [lia|].
  cbn [object_members]. destruct (scanstring_consumes s) as [Hf Hl].
  destruct (scanstring s) as [k r| | |];
    [| apply consumes_error | apply consumes_unsupported | congruence].
  specialize (Hl k r eq_refl). pose proof (skip_ws_length r) as Hw.
  destruct (skip_ws r) as [|c r1]; [apply consumes_error|].
  simpl in Hw.
  destruct (c =? 58); [|apply consumes_error].
  pose proof (skip_ws_length r1) as Hw1.
  destruct (scan_value_consumes (skip_ws r1) ltac:(lia)) as [Hfv Hlv].
  destruct (scan_value (skip_ws r1)) as [v r2| | |];
    [| apply consumes_error | apply consumes_unsupported | congruence].
  specialize (Hlv v r2 eq_refl). pose proof (skip_ws_length r2) as Hw2.
  destruct (skip_ws r2) as [|c' r3]; [apply consumes_error|].
  simpl in Hw2.
  destruct (c' =? 125); [apply consumes_ok; lia|].
  destruct (c' =? 44); [|apply consumes_error].
  pose proof (skip_ws_length r3) as Hw3.
  destruct (skip_ws r3) as [|q r4]; [apply consumes_error|].
  simpl in Hw3.
  destruct (q =? 34); [|apply consumes_error].
  apply (consumes_scan_map _ _ s r4); [apply IH; lia | lia].
Qed.

Lemma JSONObject_consumes (n : nat) (c : N) (s : pystr) :
  (List.length s < n)%nat -> (List.length s < bound)%nat ->
  consumes (JSONObject scan_value n s) (c :: s).
Proof.
  intros Hn Hb. unfold JSONObject. pose proof (skip_ws_length s) as Hw.
  destruct (skip_ws s) as [|d r]; [apply consumes_error|]. simpl in Hw.
  destruct (d =? 125); [apply consumes_ok; simpl; lia|].
  destruct (d =? 34); [|apply consumes_error].
  apply (consumes_scan_map _ _ (c :: s) r);
    [apply object_members_consumes; lia | simpl; lia].
Qed.

End ContainersConsume.

(** With more fuel than characters, [scan_once] does not run out of fuel,
    and a value it reads takes at least one character. *)
Lemma scan_once_consumes (fuel : nat) :
  forall s, (List.length s < fuel)%nat -> consumes (scan_once fuel s) s.
Proof.
  induction fuel as [|f IH]; intros s Hs; [lia|].
  destruct s as [|c s1]; [apply consumes_error|].
  simpl in Hs. cbn [scan_once].
  destruct (c =? 34).
  { apply (consumes_scan_map _ _ (c :: s1) s1);
      [apply scanstring_consumes | simpl; lia]. }
  destruct (c =? 123).
  { apply (JSONObject_consumes (scan_once f) f IH); lia. }
  destruct (c =? 91).
  { apply (JSONArray_consumes (scan_once f) f IH); lia. }
  assert (Hskip : forall n, (0 < n)%nat ->
            (List.length (skipn n (c :: s1)) < List.length (c :: s1))%nat).
  { intros n Hn. rewrite length_skipn. cbn [List.length]. lia. }
  destruct (startswith _ _); [apply consumes_ok, Hskip; lia|].
  destruct (startswith _ _); [apply consumes_ok, Hskip; lia|].
  destruct (startswith _ _); [apply consumes_ok, Hskip; lia|].
  destruct (_ || _); [apply consumes_unsupported|].
  apply match_number_consumes.
Qed.

(** The fuel [loads] gives is enough for every text. *)
Theorem scan_once_enough_fuel (s : pystr) :
  scan_once (S (List.length s)) (skip_ws s) <> OutOfFuel.
Proof.
  pose proof (skip_ws_length s) as Hw.
  apply (scan_once_consumes (S (List.length s)) (skip_ws s)). lia.
Qed.

(** ** What is read is a value Python can hold *)

Lemma dict_set_keys (k x : pystr) (v : json) (d : list (pystr * json)) :
  In x (map fst (dict_set k v d)) -> x = k \/ In x (map fst d).
Proof.
  induction d as [|[k' v'] d IH]; simpl.
  - intros [<- | []]. left; reflexivity.
  - destruct (PyStr.eqb k' k); simpl; [tauto|].
    intros [H | H]; [tauto|]. destruct (IH H); tauto.
Qed.

Lemma dict_set_NoDup (k : pystr) (v : json) (d : list (pystr * json)) :
  NoDup (map fst d) -> NoDup (map fst (dict_set k v d)).
Proof.
  induction d as [|[k' v'] d IH]; simpl; intros H.
  - constructor; [intros [] | constructor].
  - inversion H as [|? ? Hnot Hd]; subst.
    destruct (PyStr.eqb k' k) eqn:E; simpl; [exact H|].
    constructor; [|apply IH; exact Hd].
    intros Hin. apply dict_set_keys in Hin as [-> | Hin]; [|tauto].
    rewrite pystr_eqb_refl in E. discriminate.
Qed.

Lemma dict_set_values (k : pystr) (v : json) (d : list (pystr * json)) :
  wf v = true ->
  forallb (fun kv => wf (snd kv)) d = true ->
  forallb (fun kv => wf (snd kv)) (dict_set k v d) = true.
Proof.
  intros Hv. induction d as [|[k' v'] d IH]; simpl; intros H.
  - rewrite Hv. reflexivity.
  - apply andb_true_iff in H as [H1 H2].
    destruct (PyStr.eqb k' k); simpl.
    + rewrite Hv, H2. reflexivity.
    + rewrite H1, (IH H2). reflexivity.
Qed.

Lemma dict_of_pairs_wf (pairs : list (pystr * json)) :
  forallb (fun kv => wf (snd kv)) pairs = true ->
  wf (JDict (dict_of_pairs pairs)) = true.
Proof.
  unfold dict_of_pairs.
  assert (H : forall acc,
             wf (JDict acc) = true ->
             forallb (fun kv => wf (snd kv)) pairs = true ->
             wf (JDict (fold_left (fun d kv => dict_set (fst kv) (snd kv) d)
                          pairs acc)) = true).
  { induction pairs as [|[k v] pairs IH]; intros acc Hacc Hp; [exact Hacc|].
    simpl in Hp. apply andb_true_iff in Hp as [Hv Hp].
    cbn [fold_left fst snd]. apply IH; [|exact Hp].
    cbn [wf] in *. apply andb_true_iff in Hacc as [Hk Hvs].
    apply andb_true_iff. split.
    - apply distinct_NoDup, dict_set_NoDup, distinct_NoDup, Hk.
    - apply dict_set_values; assumption. }
  apply H. reflexivity.
Qed.

Section ContainersWf.

Variable scan_value : pystr -> scan json.
Hypothesis scan_value_wf :
  forall t v r, scan_value t = Ok v r -> wf v = true.

Lemma array_items_wf (n : nat) :
  forall s l r, array_items scan_value n s = Ok l r -> forallb wf l = true.
Proof.
  induction n as [|n IH]; intros s l r; [discriminate|].
  cbn [array_items].
  destruct (scan_value s) as [v r0| | |] eqn:Ev; try discriminate.
  destruct (skip_ws r0) as [|c r']; [discriminate|].
  destruct (c =? 93).
  { intros [= <- <-]. simpl. rewrite (scan_value_wf _ _ _ Ev). reflexivity. }
  destruct (c =? 44); [|discriminate].
  destruct (array_items scan_value n (skip_ws r')) as [l' r''| | |] eqn:El;
    try discriminate.
  intros [= <- <-]. simpl.
  rewrite (scan_value_wf _ _ _ Ev), (IH _ _ _ El). reflexivity.
Qed.

Lemma object_members_wf (n : nat) :
  forall s ps r,
    object_members scan_value n s = Ok ps r ->
    forallb (fun kv => wf (snd kv)) ps = true.
Proof.
  induction n as [|n IH]; intros s ps r; [discriminate|].
  cbn [object_members].
  destruct (scanstring s) as [k r0| | |]; try discriminate.
  destruct (skip_ws r0) as [|c r1]; [discriminate|].
  destruct (c =? 58); [|discriminate].
  destruct (scan_value (skip_ws r1)) as [v r2| | |] eqn:Ev; try discriminate.
  destruct (skip_ws r2) as [|c' r3]; [discriminate|].
  destruct (c' =? 125).
  { intros [= <- <-]. simpl. rewrite (scan_value_wf _ _ _ Ev). reflexivity. }
  destruct (c' =? 44); [|discriminate].
  destruct (skip_ws r3) as [|q r4]; [discriminate|].
  destruct (q =? 34); [|discriminate].
  destruct (object_members scan_value n r4) as [ps' r5| | |] eqn:Em;
    try discriminate.
  intros [= <- <-]. simpl.
  rewrite (scan_value_wf _ _ _ Ev), (IH _ _ _ Em). reflexivity.
Qed.

End ContainersWf.

Lemma match_integer_wf (neg : bool) (s : pystr) (v : json) (r : pystr) :
  match_integer neg s = Ok v r -> wf v = true.
Proof.
  unfold match_integer. destruct s as [|d s2]; [discriminate|].
  destruct (is_digit d); [|discriminate].
  destruct (if d =? 48 then _ else _) as [u rest].
  destruct (float_follows rest); [discriminate|].
  intros [= <- _]. reflexivity.
Qed.

Lemma match_number_wf (s : pystr) (v : json) (r : pystr) :
  match_number s = Ok v r -> wf v = true.
Proof.
  unfold match_number. destruct s as [|c s']; [discriminate|].
  destruct (c =? 45); apply match_integer_wf.
Qed.

Lemma scan_once_wf (fuel : nat) :
  forall s v r, scan_once fuel s = Ok v r -> wf v = true.
Proof.
  induction fuel as [|f IH]; intros s v r; [discriminate|].
  destruct s as [|c s1]; [discriminate|]. cbn [scan_once].
  destruct (c =? 34).
  { destruct (scanstring s1); try discriminate.
    intros [= <- _]. reflexivity. }
  destruct (c =? 123).
  { unfold JSONObject. destruct (skip_ws s1) as [|d r0]; [discriminate|].
    destruct (d =? 125); [intros [= <- _]; reflexivity|].
    destruct (d =? 34); [|discriminate].
    destruct (object_members (scan_once f) f r0) as [ps r1| | |] eqn:Em;
      try discriminate.
    intros [= <- _]. apply dict_of_pairs_wf.
    exact (object_members_wf (scan_once f) IH f _ _ _ Em). }
  destruct (c =? 91).
  { unfold JSONArray. destruct (skip_ws s1) as [|d r0]; [discriminate|].
    destruct (d =? 93); [intros [= <- _]; reflexivity|].
    destruct (array_items (scan_once f) f (d :: r0)) as [l r1| | |] eqn:El;
      try discriminate.
    intros [= <- _]. exact (array_items_wf (scan_once f) IH f _ _ _ El). }
  destruct (startswith _ _); [intros [= <- _]; reflexivity|].
  destruct (startswith _ _); [intros [= <- _]; reflexivity|].
  destruct (startswith _ _); [intros [= <- _]; reflexivity|].
  destruct (_ || _); [discriminate|].
  apply match_number_wf.
Qed.

(** Every document [json.loads] returns has distinct keys in each dict. *)
Theorem loads_wf (s : pystr) (v : json) : loads s = Parsed v -> wf v = true.
Proof.
  unfold loads.
  destruct (scan_once _ _) as [v' rest| | |] eqn:E; try discriminate.
  destruct (skip_ws rest); [|discriminate].
  intros [= <-]. exact (scan_once_wf _ _ _ _ E).
Qed.

(** What [load_contacts] returns is such a value. *)
Lemma load_contacts_wf (m : medium) (contacts : json) :
  load_contacts m = Some contacts -> wf contacts = true.
Proof.
  unfold load_contacts. destruct m as [s|]; cbn [exists_].
  - destruct (loads s) as [v| |] eqn:E; try discriminate.
    + intros [= <-]. exact (loads_wf _ _ E).
    + intros [= <-]. reflexivity.
  - intros [= <-]. reflexivity.
Qed.

(** ** Store *)

Lemma load_save (contacts : json) (m : medium) :
  wf contacts = true ->
  load_contacts (save_contacts contacts m) = Some contacts.
Proof.
  intros H. unfold save_contacts, open_w, write, load_contacts.
  cbn [exists_ app]. rewrite loads_dumps by exact H. reflexivity.
Qed.

Lemma optional_wf (o : option pystr) : wf (optional o) = true.
Proof. destruct o; reflexivity. Qed.

Lemma stored_wf (r : ContactResponse.t) : wf (stored r) = true.
Proof.
  unfold stored. cbn [wf map fst snd forallb].
  rewrite !optional_wf. reflexivity.
Qed.

Lemma stored_list_wf (rs : list ContactResponse.t) :
  wf (JList (map stored rs)) = true.
Proof.
  cbn [wf]. induction rs as [|r rs IH]; [reflexivity|].
  cbn [map forallb]. rewrite stored_wf. exact IH.
Qed.

(** The dict [create_contact] appends is the stored form of the record it
    returns. *)
Lemma contact_data_stored (contact : ContactRequest.t) (i : Z) (now : pystr) :
  JDict (contact_data contact i now) = stored (ContactResponse_of contact i now).
Proof. reflexivity. Qed.

(** C6: a collection that is saved is loaded back equal, in the same order
    and with the same field values: for every value whose dicts have
    distinct keys, and so for every list of records. *)
Theorem save_then_load :
  (forall contacts m,
      wf contacts = true ->
      load_contacts (save_contacts contacts m) = Some contacts)
  /\ (forall (rs : list ContactResponse.t) m,
      load_contacts (save_contacts (JList (map stored rs)) m)
      = Some (JList (map stored rs))).
Proof.
  split.
  - intros contacts m H. apply load_save; exact H.
  - intros rs m. apply load_save, stored_list_wf.
Qed.

Lemma save_then_load_witness :
  load_contacts
    (save_contacts
       (JList [JDict [(text "id", JInt 1); (text "name", JStr (text "A"))];
               JDict [(text "id", JInt 2); (text "name", JStr [34; 10; 233])]])
       None)
  = Some (JList [JDict [(text "id", JInt 1); (text "name", JStr (text "A"))];
                 JDict [(text "id", JInt 2);
                        (text "name", JStr [34; 10; 233])]]).
Proof.
  apply (proj1 save_then_load). reflexivity.
Defined.

(** C10: valid JSON of any shape is returned as parsed, a number or an
    object for instance; the empty list is returned only for a missing
    file, a parse failure, or a file that holds the empty list. *)
Theorem load_contacts_returns_parsed_value :
  (forall s v, loads s = Parsed v -> load_contacts (Some s) = Some v)
  /\ load_contacts (Some (text "7")) = Some (JInt 7)
  /\ load_contacts (Some (text "{" ++ [34; 97; 34] ++ text ": 1}"))
     = Some (JDict [([97], JInt 1)])
  /\ (forall m,
      load_contacts m = Some (JList []) ->
      m = None
      \/ exists s, m = Some s
                   /\ (loads s = JSONDecodeError \/ loads s = Parsed (JList []))).
Proof.
  split; [|split; [|split]].
  - intros s v H. unfold load_contacts. cbn [exists_]. rewrite H. reflexivity.
  - reflexivity.
  - reflexivity.
  - intros [s|] H; [right | left; reflexivity].
    exists s. split; [reflexivity|].
    unfold load_contacts in H. cbn [exists_] in H.
    destruct (loads s) as [v| |]; [right | left; reflexivity | discriminate].
    congruence.
Qed.

Lemma load_contacts_returns_parsed_value_witness :
  load_contacts (Some (text " [ true , null ] "))
  = Some (JList [JBool true; JNull])
  /\ (Some (text "[oops") = None
      \/ exists s, Some (text "[oops") = Some s
                   /\ (loads s = JSONDecodeError
                       \/ loads s = Parsed (JList []))).
Proof.
  destruct load_contacts_returns_parsed_value as (Hparsed & _ & _ & Hempty).
  split.
  - apply Hparsed. reflexivity.
  - apply Hempty. reflexivity.
Defined.

(** C4 as stated fails on a file that holds the number 7: what is loaded
    is that number, not a sequence. *)
Lemma load_contacts_not_a_sequence :
  load_contacts (Some (text "7")) = Some (JInt 7)
  /\ forall l, JInt 7 <> JList l.
Proof. split; [reflexivity | discriminate]. Qed.

(** ** Validation and encoding *)

(** The stored form of a record validates to the record when the record
    fits, and is left to the validation library otherwise. *)
Lemma validate_stored_cases (r : ContactResponse.t) :
  ContactResponse_validate (stored r)
  = if fits r then Some (Val r) else None.
Proof.
  unfold fits, text_ok. destruct r as [i n e s msg p c t del].
  cbn [ContactResponse.id ContactResponse.name ContactResponse.email
       ContactResponse.subject ContactResponse.message ContactResponse.phone
       ContactResponse.company ContactResponse.createdAt
       ContactResponse.isDeleted].
  unfold ContactResponse_validate, stored.
  cbn [ContactResponse.id ContactResponse.name ContactResponse.email
       ContactResponse.subject ContactResponse.message ContactResponse.phone
       ContactResponse.company ContactResponse.createdAt
       ContactResponse.isDeleted].
  unfold int_field, str_field, optional_field, bool_field.
  cbn [dict_get PyStr.eqb text map list_ascii_of_string N_of_ascii
       N_of_digits N.eqb Pos.eqb andb N.add N.mul Pos.add Pos.mul
       Pos.succ].
  destruct (in_range i), (scalar_text n), (scalar_text e), (scalar_text s),
    (scalar_text msg), (scalar_text t);
    destruct p as [p|], c as [c|]; cbn [optional];
    try destruct (scalar_text p); try destruct (scalar_text c);
    reflexivity.
Qed.

Lemma validate_stored (r : ContactResponse.t) :
  fits r = true -> ContactResponse_validate (stored r) = Some (Val r).
Proof. intros H. rewrite validate_stored_cases, H. reflexivity. Qed.

Lemma validate_all_stored (rs : list ContactResponse.t) :
  Forall (fun r => fits r = true) rs ->
  validate_all (map stored rs) = Some (Val rs).
Proof.
  induction 1 as [|r rs Hr _ IH]; [reflexivity|].
  cbn [map validate_all]. rewrite (validate_stored r Hr), IH. reflexivity.
Qed.

Lemma scalar_text_app (a b : pystr) :
  scalar_text (a ++ b) = scalar_text a && scalar_text b.
Proof. apply forallb_app. Qed.

Lemma escape_plain (c : N) : 93 <= c -> escape c = [c].
Proof.
  intros H. unfold escape.
  repeat match goal with
  | |- context [?a =? ?b] =>
      replace (a =? b) with false by (symmetry; apply N.eqb_neq; lia)
  | |- context [?a <? ?b] =>
      replace (a <? b) with false by (symmetry; apply N.ltb_ge; lia)
  end.
  reflexivity.
Qed.

(** Escaping neither adds nor removes a character that cannot be
    encoded. *)
Lemma escape_scalar (c : N) : scalar_text (escape c) = is_scalar c.
Proof.
  destruct (c <? 93) eqn:Hlt.
  - apply N.ltb_lt in Hlt.
    assert (Hn : (N.to_nat c < 93)%nat) by lia. clear Hlt.
    rewrite <- (N2Nat.id c). revert Hn. generalize (N.to_nat c). intros n Hn.
    do 93 (destruct n as [|n]; [reflexivity|]). lia.
  - apply N.ltb_ge in Hlt. rewrite escape_plain by exact Hlt.
    cbn [scalar_text forallb]. apply andb_true_r.
Qed.

Lemma flat_map_escape_scalar (s : pystr) :
  scalar_text (flat_map escape s) = scalar_text s.
Proof.
  induction s as [|c s IH]; [reflexivity|].
  cbn [flat_map]. rewrite scalar_text_app, escape_scalar, IH. reflexivity.
Qed.

Lemma encode_basestring_scalar (s : pystr) :
  scalar_text (encode_basestring s) = scalar_text s.
Proof.
  unfold encode_basestring.
  change (34 :: flat_map escape s ++ [34])
    with ([34] ++ flat_map escape s ++ [34]).
  rewrite !scalar_text_app, flat_map_escape_scalar.
  change (scalar_text [34]) with true. cbn [andb]. apply andb_true_r.
Qed.

Lemma uint_chars_scalar (u : Decimal.uint) : scalar_text (uint_chars u) = true.
Proof. induction u; cbn [uint_chars]; try reflexivity; exact IHu. Qed.

Lemma repr_int_scalar (z : Z) : scalar_text (repr_int z) = true.
Proof.
  unfold repr_int. destruct (Z.to_int z); [|cbn [scalar_text forallb]];
    apply uint_chars_scalar.
Qed.

Lemma newline_indent_scalar (level : nat) :
  scalar_text (newline_indent level) = true.
Proof.
  unfold newline_indent. cbn [scalar_text forallb].
  change (is_scalar 10) with true. cbn [andb].
  induction (2 * level)%nat as [|n IH]; [reflexivity | exact IH].
Qed.

Lemma join_scalar (sep : pystr) (chunks : list pystr) :
  scalar_text sep = true ->
  scalar_text (join sep chunks) = forallb scalar_text chunks.
Proof.
  intros Hsep. induction chunks as [|c cs IH]; [reflexivity|].
  destruct cs as [|c' cs].
  - cbn [join forallb]. rewrite andb_true_r. reflexivity.
  - rewrite join_cons by discriminate.
    rewrite !scalar_text_app, Hsep, IH. reflexivity.
Qed.

Lemma forallb_map_in {A B} (f : B -> bool) (g : A -> B) (h : A -> bool)
    (l : list A) :
  (forall x, In x l -> f (g x) = h x) ->
  forallb f (map g l) = forallb h l.
Proof.
  induction l as [|x l IH]; intros H; [reflexivity|].
  cbn [map forallb]. rewrite (H x (or_introl eq_refl)), IH; [reflexivity|].
  intros y Hy. apply H. right; exact Hy.
Qed.

(** The text of a value can be encoded exactly when its strings and keys
    can. *)
Lemma encode_scalar (v : json) :
  forall level, scalar_text (encode level v) = encodable v.
Proof.
  induction v as [ | b | z | s | l IH | d IH ] using json_ind; intros level.
  - reflexivity.
  - destruct b; reflexivity.
  - apply repr_int_scalar.
  - apply encode_basestring_scalar.
  - destruct l as [|x l]; [reflexivity|].
    cbn [encode encodable].
    change (91 :: ?t) with ([91] ++ t).
    rewrite !scalar_text_app, !newline_indent_scalar, join_scalar
      by (cbn [scalar_text forallb]; apply newline_indent_scalar).
    cbn [andb]. change (scalar_text [91]) with true.
    change (scalar_text [93]) with true. cbn [andb]. rewrite andb_true_r.
    apply forallb_map_in.
    intros y Hy. rewrite Forall_forall in IH. apply IH; exact Hy.
  - destruct d as [|kv d]; [reflexivity|].
    cbn [encode encodable]. rewrite encode_dict_members.
    change (123 :: ?t) with ([123] ++ t).
    rewrite !scalar_text_app, !newline_indent_scalar, join_scalar
      by (cbn [scalar_text forallb]; apply newline_indent_scalar).
    cbn [andb]. change (scalar_text [123]) with true.
    change (scalar_text [125]) with true. cbn [andb]. rewrite andb_true_r.
    apply forallb_map_in.
    intros [k x] Hkx. unfold member. cbn [fst snd].
    rewrite !scalar_text_app, encode_basestring_scalar.
    change (scalar_text [58; 32]) with true. cbn [andb].
    rewrite Forall_forall in IH. rewrite (IH _ Hkx). reflexivity.
Qed.

Lemma stored_encodable (r : ContactResponse.t) :
  encodable (stored r) = text_ok r.
Proof.
  unfold text_ok, stored. destruct r as [i n e s msg p c t del].
  cbn [ContactResponse.id ContactResponse.name ContactResponse.email
       ContactResponse.subject ContactResponse.message ContactResponse.phone
       ContactResponse.company ContactResponse.createdAt
       ContactResponse.isDeleted encodable forallb fst snd].
  repeat match goal with
  | |- context [scalar_text (text ?s)] =>
      change (scalar_text (text s)) with true
  end.
  cbn [andb].
  destruct p as [p|], c as [c|]; cbn [optional encodable];
    try destruct (scalar_text p); try destruct (scalar_text c);
    destruct (scalar_text n), (scalar_text e), (scalar_text s),
      (scalar_text msg), (scalar_text t); reflexivity.
Qed.

(** A save of text that can be encoded, on a disk that takes the write,
    completes. *)
Lemma save_contacts_outcome_completes (d : disk) (contacts : json)
    (m : medium) :
  fault d = None -> encodable contacts = true ->
  save_contacts_outcome d contacts m = (Val tt, save_contacts contacts m).
Proof.
  intros Hd He. unfold save_contacts_outcome, dumps.
  rewrite Hd, encode_scalar, He. reflexivity.
Qed.

(** A save that raises once the file is opened leaves a part of the new
    text. *)
Lemma save_contacts_outcome_fails (d : disk) (contacts : json) (m : medium) :
  fault d = Some Stopped \/ (fault d = None /\ encodable contacts = false) ->
  save_contacts_outcome d contacts m
  = (Exn,
     Some (firstn (Nat.min (reached d) (encodable_prefix (dumps contacts)))
             (dumps contacts))).
Proof.
  intros H. unfold save_contacts_outcome.
  destruct H as [H | [H He]]; rewrite H; [reflexivity|].
  unfold dumps at 1. rewrite encode_scalar, He. reflexivity.
Qed.

(** A save that cannot open the file leaves it as it was. *)
Lemma save_contacts_outcome_denied (d : disk) (contacts : json) (m : medium) :
  fault d = Some Denied -> save_contacts_outcome d contacts m = (Exn, m).
Proof. intros H. unfold save_contacts_outcome. rewrite H. reflexivity. Qed.

(** ** Create *)

Lemma ids_has_id (l : list json) (zs : list Z) :
  Forall2 has_id l zs -> ids l = Some zs.
Proof.
  induction 1 as [|c z l zs (d & -> & Hd) _ IH]; [reflexivity|].
  cbn [ids]. rewrite Hd, IH. reflexivity.
Qed.

(** [max] over a non-empty run of integers is one of them and bounds all
    of them. *)
Lemma fold_left_max (zs : list Z) (z : Z) :
  In (fold_left Z.max zs z) (z :: zs)
  /\ Forall (fun y => (y <= fold_left Z.max zs z)%Z) (z :: zs).
Proof.
  revert z; induction zs as [|y zs IH]; intros z.
  - simpl. split; [left; reflexivity | repeat constructor; lia].
  - cbn [fold_left]. destruct (IH (Z.max z y)) as [Hin Hall].
    inversion Hall as [|? ? Hz Hzs]; subst. split.
    + destruct Hin as [Hin | Hin]; [|right; right; exact Hin].
      destruct (Z.max_spec z y) as [[_ E] | [_ E]]; rewrite E in *.
      * right; left; exact Hin.
      * left; exact Hin.
    + constructor; [lia|]. constructor; [lia | exact Hzs].
Qed.

(** The identifier computed from a list of records. *)
Lemma next_id_records (l : list json) (zs : list Z) :
  Forall2 has_id l zs ->
  exists n, next_id (JList l) = Val n /\ next_after zs n.
Proof.
  intros H. pose proof (ids_has_id _ _ H) as Hids.
  destruct H as [|c z l zs Hc Hl].
  - exists 1%Z. split; reflexivity.
  - unfold next_id. cbn [truthy]. rewrite Hids.
    eexists. split; [reflexivity|]. unfold next_after.
    replace (fold_left Z.max zs z + 1 - 1)%Z with (fold_left Z.max zs z)
      by lia.
    apply fold_left_max.
Qed.

Lemma next_after_in_range (zs : list Z) (n : Z) :
  Forall below_max zs -> next_after zs n -> in_range n = true.
Proof.
  intros Hb Hn. unfold in_range. rewrite andb_true_iff, !Z.leb_le.
  destruct zs as [|z zs]; cbn [next_after] in Hn; [subst n; lia|].
  destruct Hn as [Hin _]. rewrite Forall_forall in Hb.
  specialize (Hb _ Hin). unfold below_max in Hb. lia.
Qed.

Lemma fits_ContactResponse_of (contact : ContactRequest.t) (now : pystr)
    (n k : Z) :
  fits (ContactResponse_of contact k now) = true ->
  in_range n = true ->
  fits (ContactResponse_of contact n now) = true.
Proof.
  unfold fits. rewrite !andb_true_iff. intros [_ Ht] Hn.
  split; [exact Hn | exact Ht].
Qed.

Lemma fits_text_ok (r : ContactResponse.t) : fits r = true -> text_ok r = true.
Proof. unfold fits. rewrite andb_true_iff. tauto. Qed.

(** What the response of a create is made of. *)
Lemma validate_contact_data (contact : ContactRequest.t) (n : Z)
    (now : pystr) :
  ContactResponse_validate (JDict (contact_data contact n now))
  = if fits (ContactResponse_of contact n now)
    then Some (Val (ContactResponse_of contact n now)) else None.
Proof. rewrite contact_data_stored. apply validate_stored_cases. Qed.

(** A create on a stored list runs to its end when the disk takes the
    write and the strings can be encoded: the record is returned, the list
    with the record appended is saved, and the next load returns it. *)
Lemma create_contact_completes (d : disk) (contact : ContactRequest.t)
    (now : pystr) (m : medium) (l : list json) (n : Z) :
  load_contacts m = Some (JList l) ->
  next_id (JList l) = Val n ->
  fault d = None ->
  encodable (JList l) = true ->
  fits (ContactResponse_of contact n now) = true ->
  create_contact d contact now m
  = Some (Returns (ContactResponse_of contact n now),
          save_contacts
            (JList (l ++ [stored (ContactResponse_of contact n now)])) m)
  /\ load_contacts
       (save_contacts
          (JList (l ++ [stored (ContactResponse_of contact n now)])) m)
     = Some (JList (l ++ [stored (ContactResponse_of contact n now)]))
  /\ encodable (JList (l ++ [stored (ContactResponse_of contact n now)]))
     = true.
Proof.
  intros Hload Hn Hd He Hfit.
  assert (He' : encodable
                  (JList (l ++ [stored (ContactResponse_of contact n now)]))
                = true).
  { cbn [encodable] in *. rewrite forallb_app, He. cbn [forallb].
    rewrite stored_encodable, (fits_text_ok _ Hfit). reflexivity. }
  split; [|split; [|exact He']].
  - unfold create_contact. rewrite Hload, Hn. cbn [append].
    rewrite validate_contact_data, Hfit, contact_data_stored.
    rewrite save_contacts_outcome_completes by assumption. reflexivity.
  - apply load_save. pose proof (load_contacts_wf _ _ Hload) as Hwf.
    cbn [wf] in *. rewrite forallb_app, Hwf. cbn [forallb].
    rewrite stored_wf. reflexivity.
Qed.

(** A create that returns a record has computed its identifier from the
    stored list and saved the list with the record appended. *)
Lemma create_contact_returned (d : disk) (contact : ContactRequest.t)
    (now : pystr) (m m' : medium) (r : ContactResponse.t) :
  create_contact d contact now m = Some (Returns r, m') ->
  exists l n,
    load_contacts m = Some (JList l)
    /\ next_id (JList l) = Val n
    /\ r = ContactResponse_of contact n now
    /\ m' = save_contacts (JList (l ++ [stored r])) m.
Proof.
  unfold create_contact.
  destruct (load_contacts m) as [contacts|]; [|discriminate].
  destruct (next_id contacts) as [n|] eqn:Hn; [|discriminate].
  destruct contacts as [ | | | | l | ]; cbn [append]; try discriminate.
  rewrite validate_contact_data, contact_data_stored.
  unfold save_contacts_outcome.
  destruct (fault d) as [[|]|]; try discriminate.
  destruct (scalar_text _); [|discriminate].
  destruct (fits (ContactResponse_of contact n now)); [|discriminate].
  intros [= <- <-]. exists l, n. repeat split; assumption.
Qed.

(** C5: on a stored list of records, each a dict with an integer [id], a
    create that returns a record gives it identifier 1 when the list is
    empty and otherwise one more than the greatest identifier present.
    And it does return one, appended to the list that is saved and loaded
    next, when the disk takes the write, the strings of the list and of
    the request can be encoded, and the identifiers leave room in 64
    bits. *)
Theorem create_contact_next_id (d : disk) (contact : ContactRequest.t)
    (now : pystr) (m : medium) (l : list json) (zs : list Z) :
  load_contacts m = Some (JList l) ->
  Forall2 has_id l zs ->
  (forall r m',
      create_contact d contact now m = Some (Returns r, m') ->
      next_after zs (ContactResponse.id r))
  /\ (fault d = None ->
      encodable (JList l) = true ->
      fits (ContactResponse_of contact 1 now) = true ->
      Forall below_max zs ->
      exists r,
        create_contact d contact now m
        = Some (Returns r, save_contacts (JList (l ++ [stored r])) m)
        /\ load_contacts (save_contacts (JList (l ++ [stored r])) m)
           = Some (JList (l ++ [stored r]))
        /\ r = ContactResponse_of contact (ContactResponse.id r) now
        /\ next_after zs (ContactResponse.id r)).
Proof.
  intros Hload Hids.
  destruct (next_id_records l zs Hids) as (n & Hn & Hmax).
  split.
  - intros r m' Hc.
    apply create_contact_returned in Hc as (l' & n' & Hl' & Hn' & -> & _).
    rewrite Hload in Hl'. injection Hl' as <-.
    rewrite Hn in Hn'. injection Hn' as <-. exact Hmax.
  - intros Hd He Hfit Hb.
    pose proof (next_after_in_range zs n Hb Hmax) as Hr.
    pose proof (fits_ContactResponse_of contact now n 1 Hfit Hr) as Hfn.
    destruct (create_contact_completes d contact now m l n Hload Hn Hd He Hfn)
      as (Hc & Hl & _).
    exists (ContactResponse_of contact n now).
    repeat split; assumption.
Qed.

Lemma create_contact_next_id_witness :
  (forall r m',
      create_contact working_disk request_A (text "2024-01-01T00:00:00")
        (Some (dumps (JList [JDict [(text "id", JInt 4)];
                             JDict [(text "id", JInt 9)];
                             JDict [(text "id", JInt 2)]])))
      = Some (Returns r, m') ->
      next_after [4; 9; 2]%Z (ContactResponse.id r))
  /\ exists r,
       create_contact working_disk request_A (text "2024-01-01T00:00:00")
         (Some (dumps (JList [JDict [(text "id", JInt 4)];
                              JDict [(text "id", JInt 9)];
                              JDict [(text "id", JInt 2)]])))
       = Some (Returns r,
               save_contacts
                 (JList ([JDict [(text "id", JInt 4)];
                          JDict [(text "id", JInt 9)];
                          JDict [(text "id", JInt 2)]] ++ [stored r]))
                 (Some (dumps (JList [JDict [(text "id", JInt 4)];
                                      JDict [(text "id", JInt 9)];
                                      JDict [(text "id", JInt 2)]]))))
       /\ ContactResponse.id r = 10%Z.
Proof.
  destruct (create_contact_next_id working_disk request_A
              (text "2024-01-01T00:00:00")
              (Some (dumps (JList [JDict [(text "id", JInt 4)];
                                   JDict [(text "id", JInt 9)];
                                   JDict [(text "id", JInt 2)]])))
              [JDict [(text "id", JInt 4)];
               JDict [(text "id", JInt 9)];
               JDict [(text "id", JInt 2)]]
              [4; 9; 2]%Z)
    as (Hany & Hdone).
  - vm_compute. reflexivity.
  - repeat constructor; eexists; (split; [reflexivity | reflexivity]).
  - split; [exact Hany|].
    destruct Hdone as (r & Hc & _ & _ & Hin & Hall).
    + reflexivity.
    + reflexivity.
    + reflexivity.
    + repeat constructor; unfold below_max; lia.
    + exists r. split; [exact Hc|].
      inversion Hall as [|? ? H4 Hall1]; subst.
      inversion Hall1 as [|? ? H9 _]; subst.
      simpl in Hin. lia.
Defined.

(** C4, as the code has it: when the file is missing or its text is not
    valid JSON, [load_contacts] returns the empty list; a create made then
    that returns a record gives it identifier 1; and it does return one
    and leaves the file holding that one record when the disk takes the
    write and the strings of the request can be encoded. *)
Theorem load_contacts_absent_or_unparsable (m : medium) :
  m = None \/ (exists s, m = Some s /\ loads s = JSONDecodeError) ->
  load_contacts m = Some (JList [])
  /\ (forall d contact now r m',
         create_contact d contact now m = Some (Returns r, m') ->
         ContactResponse.id r = 1%Z)
  /\ (forall d contact now,
         fault d = None ->
         fits (ContactResponse_of contact 1 now) = true ->
         create_contact d contact now m
         = Some (Returns (ContactResponse_of contact 1 now),
                 Some (dumps
                         (JList [stored (ContactResponse_of contact 1 now)])))).
Proof.
  intros H.
  assert (Hload : load_contacts m = Some (JList [])).
  { destruct H as [-> | (s & -> & Hs)]; [reflexivity|].
    unfold load_contacts. cbn [exists_]. rewrite Hs. reflexivity. }
  split; [exact Hload|]. split.
  - intros d contact now r m' Hc.
    apply create_contact_returned in Hc as (l & n & Hl & Hn & -> & _).
    rewrite Hload in Hl. injection Hl as <-.
    cbn in Hn. injection Hn as <-. reflexivity.
  - intros d contact now Hd Hfit.
    destruct (create_contact_completes d contact now m [] 1%Z Hload eq_refl
                Hd eq_refl Hfit) as (Hc & _).
    exact Hc.
Qed.

Lemma load_contacts_absent_or_unparsable_witness :
  load_contacts (Some (text "[{oops")) = Some (JList [])
  /\ (forall r m',
         create_contact working_disk request_A (text "2024-01-01T00:00:00")
           (Some (text "[{oops")) = Some (Returns r, m') ->
         ContactResponse.id r = 1%Z)
  /\ create_contact working_disk request_A (text "2024-01-01T00:00:00")
       (Some (text "[{oops"))
     = Some (Returns
               (ContactResponse_of request_A 1 (text "2024-01-01T00:00:00")),
             Some (dumps
                     (JList [stored
                               (ContactResponse_of request_A 1
                                  (text "2024-01-01T00:00:00"))]))).
Proof.
  destruct (load_contacts_absent_or_unparsable (Some (text "[{oops")))
    as (Hload & Hany & Hdone).
  - right. exists (text "[{oops"). split; reflexivity.
  - split; [exact Hload|]. split.
    + intros r m'. apply Hany.
    + apply Hdone; reflexivity.
Defined.

(** ** Clear-all *)

(** The text of the empty list is written whole on a disk that takes the
    write. *)
Lemma save_contacts_outcome_empty (d : disk) (m : medium) :
  fault d = None ->
  save_contacts_outcome d (JList []) m = (Val tt, Some (text "[]")).
Proof.
  intros Hd. rewrite save_contacts_outcome_completes by auto. reflexivity.
Qed.

(** C8, as the code has it: on a non-empty stored list, clear-all, once
    its write is taken, has written the empty list and returns a message,
    the number of records removed and the removed records themselves; on
    an empty stored list it returns a message and a zero count, nothing
    else, and is not an error. *)
Theorem delete_all_contacts_report (d : disk) (m : medium) (l : list json) :
  load_contacts m = Some (JList l) ->
  (l <> [] ->
   fault d = None ->
   delete_all_contacts d m
   = Some (Returns
             (JDict [ (text "message",
                       JStr (text "All "
                               ++ repr_int (Z.of_nat (List.length l))
                               ++ text " contacts deleted successfully"));
                      (text "deleted_count", JInt (Z.of_nat (List.length l)));
                      (text "deleted_contacts", JList l) ]),
           Some (text "[]")))
  /\ (l = [] ->
      delete_all_contacts d m
      = Some (Returns
                (JDict [ (text "message", JStr (text "No contacts to delete"));
                         (text "deleted_count", JInt 0) ]),
              m))
  /\ load_contacts (Some (text "[]")) = Some (JList []).
Proof.
  intros Hload. unfold delete_all_contacts. rewrite Hload.
  split; [|split].
  - intros Hne Hd. destruct l as [|c l]; [congruence|].
    cbn [truthy negb len copy clear].
    rewrite save_contacts_outcome_empty by exact Hd. reflexivity.
  - intros ->. reflexivity.
  - reflexivity.
Qed.

Lemma delete_all_contacts_report_witness :
  delete_all_contacts working_disk
    (Some (dumps (JList [JDict [(text "id", JInt 1)];
                         JDict [(text "id", JInt 2)]])))
  = Some (Returns
            (JDict [ (text "message",
                      JStr (text "All 2 contacts deleted successfully"));
                     (text "deleted_count", JInt 2);
                     (text "deleted_contacts",
                      JList [JDict [(text "id", JInt 1)];
                             JDict [(text "id", JInt 2)]]) ]),
          Some (text "[]"))
  /\ delete_all_contacts working_disk (Some (text "[]"))
     = Some (Returns
               (JDict [ (text "message", JStr (text "No contacts to delete"));
                        (text "deleted_count", JInt 0) ]),
             Some (text "[]")).
Proof.
  split.
  - apply (delete_all_contacts_report working_disk
             (Some (dumps (JList [JDict [(text "id", JInt 1)];
                                  JDict [(text "id", JInt 2)]])))
             [JDict [(text "id", JInt 1)]; JDict [(text "id", JInt 2)]]);
      [vm_compute; reflexivity | discriminate | reflexivity].
  - apply (delete_all_contacts_report working_disk (Some (text "[]")) []);
      reflexivity.
Defined.

(** C8 as stated fails on the empty store: the answer has a message and a
    count and no member that holds the removed records. *)
Lemma delete_all_contacts_empty_no_snapshot :
  delete_all_contacts working_disk None
  = Some (Returns
            (JDict [ (text "message", JStr (text "No contacts to delete"));
                     (text "deleted_count", JInt 0) ]),
          None)
  /\ dict_get (text "deleted_contacts")
       [ (text "message", JStr (text "No contacts to delete"));
         (text "deleted_count", JInt 0) ] = None.
Proof. split; reflexivity. Qed.

(** C9: when what is loaded is empty, clear-all returns without saving,
    whatever the disk would do with a write: the medium is the one it
    found, a missing file is still missing. *)
Theorem delete_all_contacts_empty_untouched (d : disk) (m : medium)
    (contacts : json) :
  load_contacts m = Some contacts ->
  truthy contacts = false ->
  delete_all_contacts d m
  = Some (Returns
            (JDict [ (text "message", JStr (text "No contacts to delete"));
                     (text "deleted_count", JInt 0) ]),
          m).
Proof.
  intros Hload Hempty. unfold delete_all_contacts.
  rewrite Hload, Hempty. reflexivity.
Qed.

Lemma delete_all_contacts_empty_untouched_witness :
  delete_all_contacts (failing_disk 0) None
  = Some (Returns
            (JDict [ (text "message", JStr (text "No contacts to delete"));
                     (text "deleted_count", JInt 0) ]),
          None)
  /\ delete_all_contacts working_disk (Some (text "not json"))
     = Some (Returns
               (JDict [ (text "message", JStr (text "No contacts to delete"));
                        (text "deleted_count", JInt 0) ]),
             Some (text "not json")).
Proof.
  split.
  - apply (delete_all_contacts_empty_untouched (failing_disk 0) None
             (JList [])); reflexivity.
  - apply (delete_all_contacts_empty_untouched working_disk
             (Some (text "not json")) (JList [])); reflexivity.
Defined.

(** ** Save is not all-or-nothing *)

Lemma firstn_all_length {A} (n : nat) (l : list A) :
  (List.length l <= n)%nat -> firstn n l = l.
Proof.
  revert n; induction l as [|x l IH]; intros [|n] H; simpl in *;
    try reflexivity; try lia.
  rewrite IH by lia. reflexivity.
Qed.

(** C3, as the code has it: a save that completes leaves exactly the text
    of the collection, which loads back as the collection; a save that is
    interrupted leaves only the part of the new text written so far,
    whatever the file held before. *)
Theorem save_contacts_replaces (contacts : json) (m : medium) (n : nat) :
  save_contacts contacts m = Some (dumps contacts)
  /\ save_contacts_interrupted n contacts m = Some (firstn n (dumps contacts))
  /\ ((List.length (dumps contacts) <= n)%nat ->
      save_contacts_interrupted n contacts m = save_contacts contacts m)
  /\ (wf contacts = true ->
      load_contacts (save_contacts contacts m) = Some contacts).
Proof.
  split; [reflexivity|]. split; [reflexivity|]. split.
  - intros H. unfold save_contacts_interrupted, save_contacts.
    rewrite firstn_all_length by exact H. reflexivity.
  - apply load_save.
Qed.

Lemma save_contacts_replaces_witness :
  save_contacts_interrupted 2 (JList []) (Some (text "[1, 2, 3]"))
  = save_contacts (JList []) (Some (text "[1, 2, 3]"))
  /\ load_contacts (save_contacts (JList []) (Some (text "[1, 2, 3]")))
     = Some (JList []).
Proof.
  destruct (save_contacts_replaces (JList []) (Some (text "[1, 2, 3]")) 2)
    as (_ & _ & Hfull & Hload).
  split; [apply Hfull; simpl; lia | apply Hload; reflexivity].
Defined.

(** C3 as stated fails: the file holds one record; a save of two records
    that is interrupted right after the file is opened leaves an empty
    file, and one interrupted once the first identifier is written, after
    seventeen characters, leaves text that is not JSON; in both cases the
    record that was stored is lost to the next load. *)
Lemma save_contacts_interrupted_loses_data :
  let r1 := JDict [(text "id", JInt 1); (text "name", JStr (text "A"))] in
  let r2 := JDict [(text "id", JInt 2); (text "name", JStr (text "B"))] in
  let before := Some (dumps (JList [r1])) in
  load_contacts before = Some (JList [r1])
  /\ save_contacts_interrupted 0 (JList [r1; r2]) before = Some []
  /\ load_contacts (save_contacts_interrupted 0 (JList [r1; r2]) before)
     = Some (JList [])
  /\ save_contacts_interrupted 17 (JList [r1; r2]) before
     = Some (firstn 17 (dumps (JList [r1; r2])))
  /\ loads (firstn 17 (dumps (JList [r1; r2]))) = JSONDecodeError
  /\ load_contacts (save_contacts_interrupted 17 (JList [r1; r2]) before)
     = Some (JList []).
Proof. vm_compute. repeat split; reflexivity. Qed.


(** ** Requests served one after the other *)

Lemma ids_app (l : list json) (zs : list Z) (c : json) (z : Z) :
  ids l = Some zs -> has_id c z -> ids (l ++ [c]) = Some (zs ++ [z]).
Proof.
  revert zs; induction l as [|x l IH]; intros zs Hl (d & -> & Hd).
  - injection Hl as <-. cbn [app ids]. rewrite Hd. reflexivity.
  - cbn [app ids] in *.
    destruct x as [ | | | | | dx]; try discriminate.
    destruct (dict_get (text "id") dx) as [v|]; [|discriminate].
    destruct (as_int v) as [y|]; [|discriminate].
    destruct (ids l) as [ys|]; [|discriminate].
    injection Hl as <-.
    rewrite (IH ys eq_refl) by (exists d; auto). reflexivity.
Qed.

Lemma stored_has_id (r : ContactResponse.t) :
  has_id (stored r) (ContactResponse.id r).
Proof. eexists. split; reflexivity. Qed.

(** The strings of a response are those of the request and the
    timestamp, whatever its identifier. *)
Lemma fits_numbered (contact : ContactRequest.t) (now : pystr) (n k : Z) :
  text_ok (ContactResponse_of contact k now) = true ->
  in_range n = true ->
  fits (ContactResponse_of contact n now) = true.
Proof.
  intros Ht Hn. unfold fits. rewrite andb_true_iff.
  split; [exact Hn | exact Ht].
Qed.

Lemma create_contact_holds (d : disk) (contact : ContactRequest.t)
    (now : pystr) (m : medium) (k : Z) :
  holds m k ->
  fault d = None ->
  fits (ContactResponse_of contact k now) = true ->
  exists m',
    create_contact d contact now m
    = Some (Returns (ContactResponse_of contact k now), m')
    /\ holds m' (k + 1).
Proof.
  intros (l & zs & Hload & Hwf & He & Hids & Hk & Hpos) Hd Hfit.
  assert (Hn : next_id (JList l) = Val k).
  { unfold next_id. destruct l as [|c l].
    - injection Hids as <-. subst k. reflexivity.
    - cbn [truthy]. rewrite Hids. destruct zs as [|z zs].
      + cbn [ids] in Hids. destruct c; try discriminate.
        destruct (dict_get _ _); [|discriminate].
        destruct (as_int _); [|discriminate].
        destruct (ids l); discriminate.
      + subst k. reflexivity. }
  destruct (create_contact_completes d contact now m l k Hload Hn Hd He Hfit)
    as (Hc & Hl & He').
  eexists. split; [exact Hc|].
  set (r := ContactResponse_of contact k now) in *.
  exists (l ++ [stored r]), (zs ++ [k]).
  split; [exact Hl|].
  split; [exact (load_contacts_wf _ _ Hl)|].
  split; [exact He'|].
  split; [apply ids_app; [exact Hids | apply stored_has_id]|].
  split; [|lia].
  destruct zs as [|z zs]; cbn [app].
  - subst k. reflexivity.
  - rewrite fold_left_app. cbn [fold_left]. lia.
Qed.

(** Requests served one after the other on a store whose next identifier
    is [k] are answered with [k], [k + 1], ... in the order they are
    served, as long as every write is taken, the strings of the requests
    can be encoded and the identifiers stay within 64 bits. *)
Lemma creates_numbered_from (d : disk)
    (requests : list (ContactRequest.t * pystr)) (m : medium) (k : Z) :
  holds m k ->
  fault d = None ->
  Forall (fun cn => text_ok (ContactResponse_of (fst cn) 1 (snd cn)) = true)
    requests ->
  (k + Z.of_nat (List.length requests) <= 9223372036854775808)%Z ->
  exists m', creates d requests m = Some (numbered k requests, m').
Proof.
  intros H Hd Ht. revert m k H.
  induction Ht as [|[contact now] requests Hc Ht IH]; intros m k H Hlen.
  - exists m; reflexivity.
  - pose proof H as (l & zs & _ & _ & _ & _ & _ & Hpos).
    cbn [List.length] in Hlen. cbn [fst snd] in Hc.
    assert (Hfit : fits (ContactResponse_of contact k now) = true).
    { apply (fits_numbered contact now k 1 Hc).
      unfold in_range. rewrite andb_true_iff, !Z.leb_le. lia. }
    destruct (create_contact_holds d contact now m k H Hd Hfit)
      as (m1 & Hcr & H1).
    destruct (IH m1 (k + 1)%Z H1) as (m2 & Hcs); [lia|].
    exists m2. cbn [creates numbered]. rewrite Hcr, Hcs. reflexivity.
Qed.

(** Two requests that load the same snapshot are given the same
    identifier: nothing in the handler tells them apart. *)
Lemma create_contact_same_snapshot (d1 d2 : disk) (c1 c2 : ContactRequest.t)
    (t1 t2 : pystr) (m m1 m2 : medium) (r1 r2 : ContactResponse.t) :
  create_contact d1 c1 t1 m = Some (Returns r1, m1) ->
  create_contact d2 c2 t2 m = Some (Returns r2, m2) ->
  ContactResponse.id r1 = ContactResponse.id r2.
Proof.
  intros H1 H2.
  apply create_contact_returned in H1 as (l1 & n1 & Hl1 & Hn1 & -> & _).
  apply create_contact_returned in H2 as (l2 & n2 & Hl2 & Hn2 & -> & _).
  rewrite Hl1 in Hl2. injection Hl2 as <-.
  rewrite Hn1 in Hn2. injection Hn2 as <-. reflexivity.
Qed.

(** From a store that loads as the empty list, the requests of a run are
    answered with 1, 2, 3, ... when every write is taken, the strings of
    the requests can be encoded and there are fewer than 2^63 of them. *)
Theorem creates_numbered (d : disk)
    (requests : list (ContactRequest.t * pystr)) (m : medium) :
  load_contacts m = Some (JList []) ->
  fault d = None ->
  Forall (fun cn => text_ok (ContactResponse_of (fst cn) 1 (snd cn)) = true)
    requests ->
  (Z.of_nat (List.length requests) < 9223372036854775808)%Z ->
  exists m', creates d requests m = Some (numbered 1 requests, m').
Proof.
  intros H Hd Ht Hlen. apply creates_numbered_from; [|exact Hd|exact Ht|lia].
  exists [], []. split; [exact H|]. repeat split. discriminate.
Qed.

Lemma creates_numbered_witness :
  exists m',
    creates working_disk
      [ (request_A, text "2024-01-01T00:00:00");
        ({| ContactRequest.name := text "B";
            ContactRequest.email := text "b@c.org";
            ContactRequest.subject := text "T";
            ContactRequest.message := text "N";
            ContactRequest.phone := Some (text "123");
            ContactRequest.company := None;
            ContactRequest.isDeleted := true |}, text "2024-01-01T00:00:01") ]
      None
    = Some (numbered 1
              [ (request_A, text "2024-01-01T00:00:00");
                ({| ContactRequest.name := text "B";
                    ContactRequest.email := text "b@c.org";
                    ContactRequest.subject := text "T";
                    ContactRequest.message := text "N";
                    ContactRequest.phone := Some (text "123");
                    ContactRequest.company := None;
                    ContactRequest.isDeleted := true |},
                 text "2024-01-01T00:00:01") ],
            m').
Proof.
  apply creates_numbered.
  - reflexivity.
  - reflexivity.
  - repeat constructor.
  - simpl. lia.
Defined.

(** ** Behind the gate *)

(** A request whose credential is refused is answered by the gate and
    leaves the medium alone. *)
Lemma Depends_refused {A} (API_TOKEN : pystr) (authorization : option pystr)
    (handler : medium -> option (result A * medium)) (m : medium)
    (e : HTTPException) :
  validate_token API_TOKEN authorization = Raises e ->
  Depends API_TOKEN authorization handler m = Some (Raises e, m).
Proof. intros H. unfold Depends. rewrite H. reflexivity. Qed.

(** A request whose credential is accepted is answered by the handler. *)
Lemma Depends_accepted {A} (API_TOKEN : pystr) (authorization : option pystr)
    (handler : medium -> option (result A * medium)) (m : medium)
    (token : pystr) :
  validate_token API_TOKEN authorization = Returns token ->
  Depends API_TOKEN authorization handler m = handler m.
Proof. intros H. unfold Depends. rewrite H. reflexivity. Qed.


(** * Further properties of the code *)

(** ** The gate *)

Lemma replace_from_length (old : pystr) (s : pystr) :
  forall skip,
    (List.length (replace_from old [] skip s) <= List.length s)%nat.
Proof.
  induction s as [|c s IH]; intros skip; [simpl; lia|].
  cbn [replace_from]. destruct skip as [|k].
  - destruct (startswith (c :: s) old).
    + cbn [app]. specialize (IH (List.length old - 1)%nat). simpl. lia.
    + specialize (IH 0%nat). simpl. lia.
  - specialize (IH k). simpl. lia.
Qed.

(** Removing the occurrences of a string that occurs makes the text
    shorter. *)
Lemma replace_from_shrinks (old : pystr) (s : pystr) :
  old <> [] -> contains s old = true ->
  (List.length (replace_from old [] 0 s) < List.length s)%nat.
Proof.
  intros Hold. induction s as [|c s IH]; intros H.
  - destruct old; [congruence | discriminate].
  - cbn [replace_from]. cbn [contains] in H.
    destruct (startswith (c :: s) old).
    + cbn [app]. pose proof (replace_from_length old s (List.length old - 1)).
      simpl. lia.
    + simpl in H. specialize (IH H). simpl. lia.
Qed.

(** The header the format message asks for, the scheme followed by the
    secret, is accepted exactly when the secret does not contain the
    scheme; otherwise it is refused as an invalid token. *)
Theorem validate_token_prescribed_header (API_TOKEN : pystr) :
  (contains API_TOKEN Bearer = false ->
   validate_token API_TOKEN (Some (Bearer ++ API_TOKEN)) = Returns API_TOKEN)
  /\ (contains API_TOKEN Bearer = true ->
      validate_token API_TOKEN (Some (Bearer ++ API_TOKEN))
      = Raises (unauthorized "Invalid token")).
Proof.
  split; [apply validate_token_accepts_secret|].
  intros H. unfold validate_token.
  rewrite startswith_app. unfold replace.
  change Bearer with (66 :: text "earer ") in *.
  rewrite replace_from_prefix. cbn [app negb PyStr.truthy].
  assert (Hne : replace_from (66 :: text "earer ") [] 0 API_TOKEN <> API_TOKEN).
  { intros E.
    assert (L := replace_from_shrinks (66 :: text "earer ") API_TOKEN).
    rewrite E in L. specialize (L ltac:(discriminate) H). lia. }
  apply pystr_eqb_neq in Hne. rewrite Hne. reflexivity.
Qed.

Lemma validate_token_prescribed_header_witness :
  validate_token (text "s3cret") (Some (Bearer ++ text "s3cret"))
  = Returns (text "s3cret")
  /\ validate_token (text "my Bearer token")
       (Some (Bearer ++ text "my Bearer token"))
     = Raises (unauthorized "Invalid token").
Proof.
  split.
  - apply (proj1 (validate_token_prescribed_header (text "s3cret"))).
    reflexivity.
  - apply (proj2 (validate_token_prescribed_header (text "my Bearer token"))).
    reflexivity.
Defined.

(** A secret that contains the scheme is still reachable, by a header in
    which removing one occurrence of the scheme brings another about. *)
Lemma validate_token_crafted_header :
  validate_token (text "Bearer x") (Some (text "Bearer BearBearer er x"))
  = Returns (text "Bearer x").
Proof. reflexivity. Qed.

(** Whatever the header, a refusal is a 401 with one of the three
    messages; the gate raises nothing else. *)
Theorem validate_token_refusals (API_TOKEN : pystr)
    (authorization : option pystr) (e : HTTPException) :
  validate_token API_TOKEN authorization = Raises e ->
  e = unauthorized "Authorization header is required"
  \/ e = unauthorized "Invalid authorization format. Use 'Bearer <token>'"
  \/ e = unauthorized "Invalid token".
Proof.
  unfold validate_token. destruct authorization as [a|].
  - destruct (PyStr.truthy a); cbn [negb].
    + destruct (startswith a Bearer); cbn [negb].
      * destruct (PyStr.eqb _ _); cbn [negb]; [discriminate|].
        intros [= <-]. right; right; reflexivity.
      * intros [= <-]. right; left; reflexivity.
    + intros [= <-]. left; reflexivity.
  - intros [= <-]. left; reflexivity.
Qed.

Lemma validate_token_refusals_witness :
  unauthorized "Invalid authorization format. Use 'Bearer <token>'"
  = unauthorized "Authorization header is required"
  \/ unauthorized "Invalid authorization format. Use 'Bearer <token>'"
     = unauthorized "Invalid authorization format. Use 'Bearer <token>'"
  \/ unauthorized "Invalid authorization format. Use 'Bearer <token>'"
     = unauthorized "Invalid token".
Proof.
  apply (validate_token_refusals (text "s3cret") (Some (text "bearer s3cret"))).
  reflexivity.
Defined.

(** The scheme is matched with its exact letters: a header whose first
    seven characters are not [Bearer ] is refused whatever follows, even
    the secret. *)
Theorem validate_token_scheme_exact (API_TOKEN a : pystr) :
  a <> [] ->
  firstn 7 a <> Bearer ->
  validate_token API_TOKEN (Some a)
  = Raises (unauthorized
              "Invalid authorization format. Use 'Bearer <token>'").
Proof.
  intros Ha Hp. unfold validate_token.
  destruct a as [|c a]; [congruence|]. cbn [PyStr.truthy negb].
  destruct (startswith (c :: a) Bearer) eqn:E; [|reflexivity].
  exfalso. apply Hp. apply startswith_iff in E as [t ->].
  change 7%nat with (List.length Bearer). rewrite firstn_app, Nat.sub_diag.
  rewrite firstn_all, firstn_O, List.app_nil_r. reflexivity.
Qed.

Lemma validate_token_scheme_exact_witness :
  validate_token (text "s3cret") (Some (text "bearer s3cret"))
  = Raises (unauthorized
              "Invalid authorization format. Use 'Bearer <token>'").
Proof.
  apply validate_token_scheme_exact; discriminate.
Defined.

(** A process that started has a non-empty secret, so a header that is
    nothing but the scheme, once or several times over, is refused. *)
Theorem startup_refuses_bare_scheme (ACCESS_TOKEN : option pystr)
    (API_TOKEN a : pystr) :
  startup ACCESS_TOKEN = Some API_TOKEN ->
  startswith a Bearer = true ->
  replace a Bearer [] = [] ->
  validate_token API_TOKEN (Some a) = Raises (unauthorized "Invalid token").
Proof.
  intros Hs Hp Hr.
  assert (Hne : API_TOKEN <> []).
  { unfold startup in Hs. destruct ACCESS_TOKEN as [t|]; [|discriminate].
    destruct t; [discriminate|]. injection Hs as <-. discriminate. }
  unfold validate_token.
  assert (Ht : PyStr.truthy a = true).
  { apply startswith_iff in Hp as [t ->]. reflexivity. }
  rewrite Ht, Hp, Hr. cbn [negb].
  destruct API_TOKEN; [congruence | reflexivity].
Qed.

Lemma startup_refuses_bare_scheme_witness :
  validate_token (text "s3cret") (Some (text "Bearer Bearer "))
  = Raises (unauthorized "Invalid token").
Proof.
  apply (startup_refuses_bare_scheme (Some (text "s3cret"))); reflexivity.
Defined.

(** Without that check an empty secret would let the bare scheme in. *)
Lemma validate_token_empty_secret :
  startup (Some []) = None
  /\ validate_token [] (Some Bearer) = Returns [].
Proof. split; reflexivity. Qed.


(** ** Create *)

(** A create whose save raises once the file is opened. *)
Lemma create_contact_stopped (d : disk) (contact : ContactRequest.t)
    (now : pystr) (m : medium) (l : list json) (n : Z) :
  load_contacts m = Some (JList l) ->
  next_id (JList l) = Val n ->
  fault d = Some Stopped
  \/ (fault d = None
      /\ encodable (JList (l ++ [stored (ContactResponse_of contact n now)]))
         = false) ->
  create_contact d contact now m
  = Some (server_error "Error saving contact: ",
          Some (firstn
                  (Nat.min (reached d)
                     (encodable_prefix
                        (dumps
                           (JList
                              (l ++ [stored
                                       (ContactResponse_of contact n now)])))))
                  (dumps
                     (JList
                        (l ++ [stored (ContactResponse_of contact n now)]))))).
Proof.
  intros Hload Hn H. unfold create_contact.
  rewrite Hload, Hn. cbn [append]. rewrite contact_data_stored.
  rewrite save_contacts_outcome_fails by exact H. reflexivity.
Qed.



(** A request whose name is a lone surrogate, on a disk without fault and
    a file that holds one record: the create is answered with a 500 and
    the file holds less than the head of the new text up to that name,
    which is not JSON; the record that was stored is lost to the next
    load. *)
Lemma create_contact_lone_surrogate (k : nat) :
  let request :=
    {| ContactRequest.name := [55296];
       ContactRequest.email := text "a@b.com";
       ContactRequest.subject := text "S";
       ContactRequest.message := text "M";
       ContactRequest.phone := None;
       ContactRequest.company := None;
       ContactRequest.isDeleted := false |} in
  let before := Some (dumps (JList [JDict [(text "id", JInt 1)]])) in
  let d := {| fault := None; reached := k |} in
  exists written,
    create_contact d request (text "2024-01-01T00:00:00") before
    = Some (server_error "Error saving contact: ", Some written)
    /\ (List.length written <= 41)%nat
    /\ load_contacts before = Some (JList [JDict [(text "id", JInt 1)]])
    /\ load_contacts (Some written) = Some (JList []).
Proof.
  intros request before d.
  eexists. split.
  { apply (create_contact_stopped d request (text "2024-01-01T00:00:00")
             before [JDict [(text "id", JInt 1)]] 2%Z);
      [vm_compute; reflexivity | reflexivity | right; split; reflexivity]. }
  cbn [reached d].
  do 42 (destruct k as [|k];
         [split; [vm_compute; lia | split; vm_compute; reflexivity]|]).
  split; [vm_compute; lia | split; vm_compute; reflexivity].
Qed.

(** When the file holds valid JSON that is not a list, every create fails
    with a 500 and the file stays as it is: unlike unparsable text, such a
    file is never replaced. *)
Theorem create_contact_not_a_list (d : disk) (contact : ContactRequest.t)
    (now : pystr) (m : medium) (contacts : json) :
  load_contacts m = Some contacts ->
  (forall l, contacts <> JList l) ->
  create_contact d contact now m
  = Some (server_error "Error saving contact: ", m).
Proof.
  intros Hload Hnot. unfold create_contact. rewrite Hload.
  destruct contacts as [ | b | z | s | l | fields ];
    try (exfalso; exact (Hnot l eq_refl));
    unfold next_id; cbn [truthy].
  - reflexivity.
  - destruct b; reflexivity.
  - destruct (negb (z =? 0)%Z); reflexivity.
  - destruct (PyStr.truthy s); reflexivity.
  - destruct fields; reflexivity.
Qed.

Lemma create_contact_not_a_list_witness :
  create_contact working_disk request_A (text "2024-01-01T00:00:00")
    (Some (text "{}"))
  = Some (server_error "Error saving contact: ", Some (text "{}")).
Proof.
  apply (create_contact_not_a_list _ _ _ (Some (text "{}")) (JDict []));
    [reflexivity | discriminate].
Defined.

(** When some item of the stored list is not a dict, has no [id], or has
    an [id] that is not an integer or a boolean, every create fails with a
    500 and the file stays as it is. *)
Theorem create_contact_bad_record (d : disk) (contact : ContactRequest.t)
    (now : pystr) (m : medium) (l : list json) (c : json) :
  load_contacts m = Some (JList l) ->
  In c l ->
  (forall fields v, c = JDict fields ->
                    dict_get (text "id") fields = Some v ->
                    as_int v = None) ->
  create_contact d contact now m
  = Some (server_error "Error saving contact: ", m).
Proof.
  intros Hload Hin Hbad. unfold create_contact. rewrite Hload.
  assert (Hids : ids l = None).
  { clear Hload. induction l as [|x l IH]; [destruct Hin|].
    cbn [ids]. destruct Hin as [-> | Hin].
    - destruct c as [ | | | | | fields]; try reflexivity.
      destruct (dict_get (text "id") fields) as [v|] eqn:E; [|reflexivity].
      rewrite (Hbad fields v eq_refl E). reflexivity.
    - rewrite (IH Hin). destruct x as [ | | | | | fields]; try reflexivity.
      destruct (dict_get (text "id") fields) as [v|]; [|reflexivity].
      destruct (as_int v); reflexivity. }
  unfold next_id. destruct l as [|x l]; [destruct Hin|].
  cbn [truthy]. rewrite Hids. reflexivity.
Qed.

Lemma create_contact_bad_record_witness :
  create_contact working_disk request_A (text "2024-01-01T00:00:00")
      (Some (dumps (JList [JDict [(text "id", JInt 1)];
                           JDict [(text "name", JStr (text "A"))]])))
  = Some (server_error "Error saving contact: ",
          Some (dumps (JList [JDict [(text "id", JInt 1)];
                              JDict [(text "name", JStr (text "A"))]]))).
Proof.
  apply (create_contact_bad_record _ _ _ _
           [JDict [(text "id", JInt 1)];
            JDict [(text "name", JStr (text "A"))]]
           (JDict [(text "name", JStr (text "A"))])).
  - vm_compute. reflexivity.
  - right; left; reflexivity.
  - intros fields v [= <-]. discriminate.
Defined.

(** A create on a stored list of records, when the disk takes the write,
    the strings can be encoded and the identifiers leave room in 64 bits:
    the identifier, the answer, the list saved and what the next load
    returns. *)
Lemma create_contact_appends (d : disk) (contact : ContactRequest.t)
    (now : pystr) (m : medium) (l : list json) (zs : list Z) :
  load_contacts m = Some (JList l) ->
  Forall2 has_id l zs ->
  fault d = None ->
  encodable (JList l) = true ->
  fits (ContactResponse_of contact 1 now) = true ->
  Forall below_max zs ->
  exists n,
    create_contact d contact now m
    = Some (Returns (ContactResponse_of contact n now),
            save_contacts
              (JList (l ++ [stored (ContactResponse_of contact n now)])) m)
    /\ load_contacts
         (save_contacts
            (JList (l ++ [stored (ContactResponse_of contact n now)])) m)
       = Some (JList (l ++ [stored (ContactResponse_of contact n now)]))
    /\ next_after zs n
    /\ fits (ContactResponse_of contact n now) = true.
Proof.
  intros Hload Hids Hd He Hfit Hb.
  destruct (next_id_records l zs Hids) as (n & Hn & Hmax).
  pose proof (next_after_in_range zs n Hb Hmax) as Hr.
  pose proof (fits_ContactResponse_of contact now n 1 Hfit Hr) as Hfn.
  destruct (create_contact_completes d contact now m l n Hload Hn Hd He Hfn)
    as (Hc & Hl & _).
  exists n. repeat split; assumption.
Qed.

(** Identifiers stay pairwise distinct: on a stored list of records with
    distinct identifiers, when the disk takes the write, the strings can
    be encoded and the identifiers leave room in 64 bits, the list after a
    create is the old list with the new record last, and its identifiers
    are distinct again. *)
Theorem create_contact_keeps_ids_distinct (d : disk)
    (contact : ContactRequest.t) (now : pystr) (m : medium) (l : list json)
    (zs : list Z) :
  load_contacts m = Some (JList l) ->
  Forall2 has_id l zs ->
  NoDup zs ->
  fault d = None ->
  encodable (JList l) = true ->
  fits (ContactResponse_of contact 1 now) = true ->
  Forall below_max zs ->
  exists r m',
    create_contact d contact now m = Some (Returns r, m')
    /\ load_contacts m' = Some (JList (l ++ [stored r]))
    /\ Forall2 has_id (l ++ [stored r]) (zs ++ [ContactResponse.id r])
    /\ NoDup (zs ++ [ContactResponse.id r]).
Proof.
  intros Hload Hids Hnd Hd He Hfit Hb.
  destruct (create_contact_appends d contact now m l zs Hload Hids Hd He
              Hfit Hb) as (n & Hc & Hl & Hmax & _).
  exists (ContactResponse_of contact n now),
    (save_contacts (JList (l ++ [stored (ContactResponse_of contact n now)])) m).
  split; [exact Hc|]. split; [exact Hl|]. split.
  - apply Forall2_app; [exact Hids|].
    constructor; [apply stored_has_id | constructor].
  - apply NoDup_app; [exact Hnd | repeat constructor; intros [] |].
    cbn [ContactResponse.id ContactResponse_of].
    intros z Hz [<- | []]. destruct zs as [|z0 zs0]; [destruct Hz|].
    destruct Hmax as [_ Hall]. rewrite Forall_forall in Hall.
    specialize (Hall _ Hz). lia.
Qed.

Lemma create_contact_keeps_ids_distinct_witness :
  exists r m',
    create_contact working_disk request_A (text "2024-01-01T00:00:00")
      (Some (dumps (JList [JDict [(text "id", JInt 7)];
                           JDict [(text "id", JInt 3)]])))
    = Some (Returns r, m')
    /\ load_contacts m'
       = Some (JList ([JDict [(text "id", JInt 7)];
                       JDict [(text "id", JInt 3)]] ++ [stored r]))
    /\ Forall2 has_id
         ([JDict [(text "id", JInt 7)]; JDict [(text "id", JInt 3)]]
            ++ [stored r])
         ([7; 3]%Z ++ [ContactResponse.id r])
    /\ NoDup ([7; 3]%Z ++ [ContactResponse.id r]).
Proof.
  apply create_contact_keeps_ids_distinct.
  - vm_compute. reflexivity.
  - repeat constructor; eexists; (split; [reflexivity | reflexivity]).
  - repeat constructor; simpl; intuition discriminate.
  - reflexivity.
  - reflexivity.
  - reflexivity.
  - repeat constructor; unfold below_max; lia.
Defined.

(** ** Clear-all *)

(** A save that returns has written the whole text. *)
Lemma save_contacts_outcome_Val (d : disk) (contacts : json) (m m' : medium)
    (u : unit) :
  save_contacts_outcome d contacts m = (Val u, m') ->
  m' = Some (dumps contacts).
Proof.
  unfold save_contacts_outcome.
  destruct (fault d) as [[|]|]; try discriminate.
  destruct (scalar_text (dumps contacts)); [|discriminate].
  intros [= _ <-]. reflexivity.
Qed.

(** A clear-all of a non-empty stored list whose save fails is answered
    with a 500 and reports nothing as deleted.  When the file could not be
    opened it is as the request found it.  When the write stopped after
    the file was opened, the file holds a part of the text of the empty
    list and the next load returns the empty list: the records are gone
    although the request failed. *)
Theorem delete_all_contacts_save_fails (d : disk) (m : medium)
    (l : list json) :
  load_contacts m = Some (JList l) ->
  l <> [] ->
  (fault d = Some Denied ->
   delete_all_contacts d m
   = Some (server_error "Error deleting contacts: ", m))
  /\ (fault d = Some Stopped ->
      delete_all_contacts d m
      = Some (server_error "Error deleting contacts: ",
              Some (firstn (Nat.min (reached d) 2) (text "[]")))
      /\ load_contacts (Some (firstn (Nat.min (reached d) 2) (text "[]")))
         = Some (JList [])).
Proof.
  intros Hload Hne. destruct l as [|c l]; [congruence|].
  split; intros H.
  - unfold delete_all_contacts. rewrite Hload.
    cbn [truthy negb len copy clear].
    rewrite save_contacts_outcome_denied by exact H. reflexivity.
  - split.
    + unfold delete_all_contacts. rewrite Hload.
      cbn [truthy negb len copy clear].
      rewrite save_contacts_outcome_fails by (left; exact H). reflexivity.
    + destruct (reached d) as [|[|[|k]]]; reflexivity.
Qed.

Lemma delete_all_contacts_save_fails_witness :
  delete_all_contacts read_only_disk (Some (text "[1, 2]"))
  = Some (server_error "Error deleting contacts: ", Some (text "[1, 2]"))
  /\ delete_all_contacts (failing_disk 1) (Some (text "[1, 2]"))
     = Some (server_error "Error deleting contacts: ",
             Some (firstn (Nat.min (reached (failing_disk 1)) 2) (text "[]")))
  /\ load_contacts
       (Some (firstn (Nat.min (reached (failing_disk 1)) 2) (text "[]")))
     = Some (JList []).
Proof.
  split.
  - apply (delete_all_contacts_save_fails read_only_disk
             (Some (text "[1, 2]")) [JInt 1; JInt 2]);
      [reflexivity | discriminate | reflexivity].
  - apply (delete_all_contacts_save_fails (failing_disk 1)
             (Some (text "[1, 2]")) [JInt 1; JInt 2]);
      [reflexivity | discriminate | reflexivity].
Defined.

(** After a clear-all that succeeded, whatever the file held, a second
    clear-all finds nothing to delete and leaves the file alone, whatever
    the disk would do with a write. *)
Theorem delete_all_contacts_twice (d d' : disk) (m m1 : medium)
    (report : json) :
  delete_all_contacts d m = Some (Returns report, m1) ->
  delete_all_contacts d' m1 = Some (Returns nothing_to_delete, m1).
Proof.
  unfold delete_all_contacts at 1.
  destruct (load_contacts m) as [contacts|] eqn:Hload; [|discriminate].
  destruct (truthy contacts) eqn:Ht; cbn [negb].
  - destruct contacts as [ | | | | l | fields ];
      cbn [len copy clear]; try discriminate;
      match goal with
      | |- context [save_contacts_outcome d ?c m] =>
          destruct (save_contacts_outcome d c m) as [[u|] m'] eqn:E;
          [|discriminate];
          apply save_contacts_outcome_Val in E; subst m'
      end;
      intros [= _ <-]; reflexivity.
  - intros [= _ <-]. unfold delete_all_contacts. rewrite Hload, Ht.
    reflexivity.
Qed.

Lemma delete_all_contacts_twice_witness :
  delete_all_contacts (failing_disk 0) (Some (text "[]"))
  = Some (Returns nothing_to_delete, Some (text "[]")).
Proof.
  apply (delete_all_contacts_twice working_disk (failing_disk 0)
           (Some (text "[1, 2]")) (Some (text "[]"))
           (JDict [ (text "message",
                     JStr (text "All 2 contacts deleted successfully"));
                    (text "deleted_count", JInt 2);
                    (text "deleted_contacts", JList [JInt 1; JInt 2]) ])).
  reflexivity.
Defined.

(** Identifiers start again at 1 after a clear-all: when the disk takes
    the writes and the strings of the request can be encoded, the create
    that follows a clear-all is answered with identifier 1, whatever
    identifiers the removed records had. *)
Theorem delete_all_contacts_then_create (d : disk) (m : medium)
    (l : list json) (contact : ContactRequest.t) (now : pystr) :
  load_contacts m = Some (JList l) ->
  fault d = None ->
  fits (ContactResponse_of contact 1 now) = true ->
  exists report m1,
    delete_all_contacts d m = Some (Returns report, m1)
    /\ create_contact d contact now m1
       = Some (Returns (ContactResponse_of contact 1 now),
               Some (dumps (JList [stored (ContactResponse_of contact 1 now)]))).
Proof.
  intros Hload Hd Hfit. unfold delete_all_contacts. rewrite Hload.
  destruct l as [|c l]; cbn [truthy negb len copy clear].
  - eexists; eexists. split; [reflexivity|].
    destruct (create_contact_completes d contact now m [] 1%Z Hload eq_refl
                Hd eq_refl Hfit) as (Hc & _).
    exact Hc.
  - rewrite save_contacts_outcome_empty by exact Hd.
    eexists; eexists. split; [reflexivity|].
    destruct (create_contact_completes d contact now (Some (text "[]")) []
                1%Z eq_refl eq_refl Hd eq_refl Hfit) as (Hc & _).
    exact Hc.
Qed.

Lemma delete_all_contacts_then_create_witness :
  exists report m1,
    delete_all_contacts working_disk (Some (text "[{}, {}]"))
    = Some (Returns report, m1)
    /\ create_contact working_disk request_A (text "2024-01-01T00:00:00") m1
       = Some (Returns
                 (ContactResponse_of request_A 1 (text "2024-01-01T00:00:00")),
               Some (dumps
                       (JList
                          [stored
                             (ContactResponse_of request_A 1
                                (text "2024-01-01T00:00:00"))]))).
Proof.
  apply (delete_all_contacts_then_create working_disk
           (Some (text "[{}, {}]")) [JDict []; JDict []]);
    reflexivity.
Defined.

(** On a file that holds a non-empty JSON object, clear-all, once its
    write is taken, reports its members as the removed contacts, counts
    its keys, and leaves an empty object in the file, not an empty
    list. *)
Theorem delete_all_contacts_object (d : disk) (m : medium)
    (fields : list (pystr * json)) :
  load_contacts m = Some (JDict fields) ->
  fields <> [] ->
  fault d = None ->
  delete_all_contacts d m
  = Some (Returns
            (JDict [ (text "message",
                      JStr (text "All "
                              ++ repr_int (Z.of_nat (List.length fields))
                              ++ text " contacts deleted successfully"));
                     (text "deleted_count",
                      JInt (Z.of_nat (List.length fields)));
                     (text "deleted_contacts", JDict fields) ]),
          Some (text "{}")).
Proof.
  intros Hload Hne Hd. unfold delete_all_contacts. rewrite Hload.
  destruct fields; [congruence|].
  cbn [truthy negb len copy clear].
  rewrite save_contacts_outcome_completes by auto. reflexivity.
Qed.

Lemma delete_all_contacts_object_witness :
  delete_all_contacts working_disk
    (Some (text "{" ++ [34; 97; 34] ++ text ": 1}"))
  = Some (Returns
            (JDict [ (text "message",
                      JStr (text "All 1 contacts deleted successfully"));
                     (text "deleted_count", JInt 1);
                     (text "deleted_contacts", JDict [([97], JInt 1)]) ]),
          Some (text "{}")).
Proof.
  apply (delete_all_contacts_object working_disk
           (Some (text "{" ++ [34; 97; 34] ++ text ": 1}"))
           [([97], JInt 1)]); [reflexivity | discriminate | reflexivity].
Defined.

(** ** List *)

(** The listing returns the stored records as they are and in the order
    they are stored, those flagged [isDeleted] included, and does not
    touch the file. *)
Theorem get_contacts_records (m : medium) (rs : list ContactResponse.t) :
  load_contacts m = Some (JList (map stored rs)) ->
  Forall (fun r => fits r = true) rs ->
  get_contacts m = Some (Returns rs, m).
Proof.
  intros Hload Hfits. unfold get_contacts. rewrite Hload. cbn [iterate].
  rewrite (validate_all_stored rs Hfits). reflexivity.
Qed.

Lemma get_contacts_records_witness :
  get_contacts
    (save_contacts
       (JList (map stored
                 [ {| ContactResponse.id := 1;
                      ContactResponse.name := text "A";
                      ContactResponse.email := text "a@b.com";
                      ContactResponse.subject := text "S";
                      ContactResponse.message := text "M";
                      ContactResponse.phone := None;
                      ContactResponse.company := Some (text "C");
                      ContactResponse.createdAt := text "2024-01-01T00:00:00";
                      ContactResponse.isDeleted := true |} ]))
       None)
  = Some (Returns
            [ {| ContactResponse.id := 1;
                 ContactResponse.name := text "A";
                 ContactResponse.email := text "a@b.com";
                 ContactResponse.subject := text "S";
                 ContactResponse.message := text "M";
                 ContactResponse.phone := None;
                 ContactResponse.company := Some (text "C");
                 ContactResponse.createdAt := text "2024-01-01T00:00:00";
                 ContactResponse.isDeleted := true |} ],
          save_contacts
            (JList (map stored
                      [ {| ContactResponse.id := 1;
                           ContactResponse.name := text "A";
                           ContactResponse.email := text "a@b.com";
                           ContactResponse.subject := text "S";
                           ContactResponse.message := text "M";
                           ContactResponse.phone := None;
                           ContactResponse.company := Some (text "C");
                           ContactResponse.createdAt :=
                             text "2024-01-01T00:00:00";
                           ContactResponse.isDeleted := true |} ]))
            None).
Proof.
  apply get_contacts_records.
  - vm_compute. reflexivity.
  - repeat constructor.
Defined.

Lemma stored_list_has_id (rs : list ContactResponse.t) :
  Forall2 has_id (map stored rs) (map ContactResponse.id rs).
Proof.
  induction rs as [|r rs IH]; [constructor|].
  cbn [map]. constructor; [apply stored_has_id | exact IH].
Qed.

Lemma stored_list_encodable (rs : list ContactResponse.t) :
  Forall (fun r => fits r = true) rs ->
  encodable (JList (map stored rs)) = true.
Proof.
  cbn [encodable]. induction 1 as [|r rs Hr _ IH]; [reflexivity|].
  cbn [map forallb]. rewrite stored_encodable, (fits_text_ok r Hr), IH.
  reflexivity.
Qed.

(** A create followed by a listing, when the disk takes the write: the
    records that were stored, in their order, then the record the create
    returned. *)
Theorem create_contact_then_get_contacts (d : disk)
    (contact : ContactRequest.t) (now : pystr) (m : medium)
    (rs : list ContactResponse.t) :
  load_contacts m = Some (JList (map stored rs)) ->
  Forall (fun r => fits r = true
                   /\ (ContactResponse.id r < 9223372036854775807)%Z) rs ->
  fits (ContactResponse_of contact 1 now) = true ->
  fault d = None ->
  exists r m',
    create_contact d contact now m = Some (Returns r, m')
    /\ get_contacts m' = Some (Returns (rs ++ [r]), m').
Proof.
  intros Hload Hfit Hreq Hd.
  assert (Hfits : Forall (fun r => fits r = true) rs).
  { eapply Forall_impl; [|exact Hfit]. intros r [Hr _]. exact Hr. }
  assert (Hb : Forall below_max (map ContactResponse.id rs)).
  { apply Forall_map. eapply Forall_impl; [|exact Hfit].
    intros r [Hr Hlt]. unfold fits in Hr.
    apply andb_true_iff in Hr as [Hr _]. unfold in_range in Hr.
    rewrite andb_true_iff, !Z.leb_le in Hr. unfold below_max. lia. }
  destruct (create_contact_appends d contact now m _ _ Hload
              (stored_list_has_id rs) Hd (stored_list_encodable rs Hfits)
              Hreq Hb) as (n & Hc & Hl & _ & Hfn).
  eexists; eexists. split; [exact Hc|].
  change [stored (ContactResponse_of contact n now)]
    with (map stored [ContactResponse_of contact n now]) in *.
  rewrite <- map_app in *.
  unfold get_contacts. rewrite Hl. cbn [iterate].
  rewrite validate_all_stored; [reflexivity|].
  apply Forall_app. split; [exact Hfits|].
  constructor; [exact Hfn | constructor].
Qed.

Lemma create_contact_then_get_contacts_witness :
  exists r m',
    create_contact working_disk request_A (text "2024-01-01T00:00:00") None
    = Some (Returns r, m')
    /\ get_contacts m' = Some (Returns ([] ++ [r]), m').
Proof.
  apply (create_contact_then_get_contacts _ _ _ None []);
    [reflexivity | constructor | reflexivity | reflexivity].
Defined.

Lemma field_ap_fails_right {A B} (f : validated (A -> B)) :
  field_ap f (Some Exn) = Some Exn.
Proof. destruct f as [[g|]|]; reflexivity. Qed.

Lemma field_ap_fails_left {A B} (x : validated A) :
  field_ap (A := A) (B := B) (Some Exn) x = Some Exn.
Proof. reflexivity. Qed.

Lemma validate_missing (d : list (pystr * json)) (k : pystr) :
  In k required -> dict_get k d = None ->
  ContactResponse_validate (JDict d) = Some Exn.
Proof.
  intros Hk Hget. unfold ContactResponse_validate.
  unfold required in Hk. cbn [In] in Hk.
  destruct Hk as [<-|[<-|[<-|[<-|[<-|[<-|[<-|[]]]]]]]];
    match goal with
    | |- context [int_field ?k d] =>
        first [ replace (int_field k d) with (@Some (py Z) Exn)
                  by (unfold int_field; rewrite Hget; reflexivity)
              | idtac ]
    end;
    try (replace (str_field (text "name") d) with (@Some (py pystr) Exn)
           by (unfold str_field; rewrite Hget; reflexivity));
    try (replace (str_field (text "email") d) with (@Some (py pystr) Exn)
           by (unfold str_field; rewrite Hget; reflexivity));
    try (replace (str_field (text "subject") d) with (@Some (py pystr) Exn)
           by (unfold str_field; rewrite Hget; reflexivity));
    try (replace (str_field (text "message") d) with (@Some (py pystr) Exn)
           by (unfold str_field; rewrite Hget; reflexivity));
    try (replace (str_field (text "createdAt") d) with (@Some (py pystr) Exn)
           by (unfold str_field; rewrite Hget; reflexivity));
    try (replace (bool_field (text "isDeleted") d) with (@Some (py bool) Exn)
           by (unfold bool_field; rewrite Hget; reflexivity));
    rewrite ?field_ap_fails_right; reflexivity.
Qed.

Lemma validate_all_app_fails (rs : list ContactResponse.t) (c : json)
    (rest : list json) :
  Forall (fun r => fits r = true) rs ->
  ContactResponse_validate c = Some Exn ->
  validate_all (map stored rs ++ c :: rest) = Some Exn.
Proof.
  intros Hfits Hc. induction Hfits as [|r rs Hr _ IH].
  - cbn [map app validate_all]. rewrite Hc. reflexivity.
  - cbn [map app validate_all]. rewrite (validate_stored r Hr), IH.
    reflexivity.
Qed.

(** One stored item that is not a dict, or that lacks a required field,
    makes the whole listing fail with a 500, whatever the records before
    and the items after it. *)
Theorem get_contacts_invalid_record (m : medium)
    (rs : list ContactResponse.t) (c : json) (rest : list json) :
  load_contacts m = Some (JList (map stored rs ++ c :: rest)) ->
  Forall (fun r => fits r = true) rs ->
  (forall d, c <> JDict d)
  \/ (exists d k, c = JDict d /\ In k required /\ dict_get k d = None) ->
  get_contacts m = Some (server_error "Error loading contacts: ", m).
Proof.
  intros Hload Hfits Hbad. unfold get_contacts. rewrite Hload. cbn [iterate].
  rewrite (validate_all_app_fails rs c rest Hfits); [reflexivity|].
  destruct Hbad as [Hnot | (d & k & -> & Hk & Hget)].
  - destruct c; try reflexivity. exfalso. eapply Hnot; reflexivity.
  - exact (validate_missing d k Hk Hget).
Qed.

Lemma get_contacts_invalid_record_witness :
  get_contacts
    (Some (dumps (JList [JDict [(text "id", JInt 1);
                                (text "name", JStr (text "A"))]])))
  = Some (server_error "Error loading contacts: ",
          Some (dumps (JList [JDict [(text "id", JInt 1);
                                     (text "name", JStr (text "A"))]]))).
Proof.
  apply (get_contacts_invalid_record _ []
           (JDict [(text "id", JInt 1); (text "name", JStr (text "A"))]) []).
  - vm_compute. reflexivity.
  - constructor.
  - right. exists [(text "id", JInt 1); (text "name", JStr (text "A"))],
      (text "email").
    split; [reflexivity|]. split; [|reflexivity].
    right; right; left; reflexivity.
Defined.

(** On a file that holds valid JSON other than a list, the listing is
    empty for an empty object and for an empty string, and a 500 for
    everything else. *)
Theorem get_contacts_not_a_list (m : medium) (contacts : json) :
  load_contacts m = Some contacts ->
  (forall l, contacts <> JList l) ->
  get_contacts m
  = Some (match contacts with
          | JDict [] => Returns []
          | JStr [] => Returns []
          | _ => server_error "Error loading contacts: "
          end, m).
Proof.
  intros Hload Hnot. unfold get_contacts. rewrite Hload.
  destruct contacts as [ | b | z | s | l | d ]; try reflexivity.
  - destruct s; reflexivity.
  - exfalso. exact (Hnot l eq_refl).
  - destruct d as [|[k v] d]; reflexivity.
Qed.

Lemma get_contacts_not_a_list_witness :
  get_contacts (Some (text "{}")) = Some (Returns [], Some (text "{}"))
  /\ get_contacts (Some (text "null"))
     = Some (server_error "Error loading contacts: ", Some (text "null")).
Proof.
  split.
  - apply (get_contacts_not_a_list (Some (text "{}")) (JDict []));
      [reflexivity | discriminate].
  - apply (get_contacts_not_a_list (Some (text "null")) JNull);
      [reflexivity | discriminate].
Defined.

(** After a clear-all of a stored list whose write is taken, the listing
    is empty. *)
Theorem delete_all_contacts_then_get_contacts (d : disk) (m : medium)
    (l : list json) :
  load_contacts m = Some (JList l) ->
  fault d = None ->
  exists report m1,
    delete_all_contacts d m = Some (Returns report, m1)
    /\ get_contacts m1 = Some (Returns [], m1).
Proof.
  intros Hload Hd. unfold delete_all_contacts. rewrite Hload.
  destruct l as [|c l]; cbn [truthy negb len copy clear].
  - eexists; eexists. split; [reflexivity|].
    unfold get_contacts. rewrite Hload. reflexivity.
  - rewrite save_contacts_outcome_empty by exact Hd.
    eexists; eexists. split; reflexivity.
Qed.

Lemma delete_all_contacts_then_get_contacts_witness :
  exists report m1,
    delete_all_contacts working_disk (Some (text "[{}, 3]"))
    = Some (Returns report, m1)
    /\ get_contacts m1 = Some (Returns [], m1).
Proof.
  apply (delete_all_contacts_then_get_contacts working_disk
           (Some (text "[{}, 3]")) [JDict []; JInt 3]);
    reflexivity.
Defined.
